(** * scripts/update_do_spec.py: the environment-variable synchroniser

    A shallow embedding of the script that fetches the DigitalOcean App
    Platform specification of an application, merges a fixed list of
    environment entries into the service named [synoptic-web], removes
    hard-coded [DATABASE_URL] entries and repeated keys, and pushes the
    result back.

    Python values are modelled as follows.
    - [str] is [string] (a sequence of bytes); [in] on strings is [str_in],
      [str.lower] is [lower] (ASCII case folding: no character outside
      ASCII folds to a letter of the word the script searches for).
    - An environment entry (a dict read with [e['key']] and
      [e.get('value', '')]) is the record [EnvEntry]: the key is always
      there, the other members may be missing.
    - A service and the specification are records that keep the members
      the script reads and carry every other member along untouched.
    - [os.environ] is a [gmap string string].
    - The sets [existing_keys] and [seen] are [gset string].
    - [print], [subprocess.run], [sys.exit] and an uncaught exception are
      the effects of the monad [Script].
    - [argparse], [curl] and the JSON reader and writer are not part of
      the script: [parse_args], [subprocess_run], [load_spec] and
      [dump_spec] stand for them, and every theorem holds whatever they
      answer. *)

From Stdlib Require Import ZArith Ascii.
From stdpp Require Import base option list gmap strings pretty.

#[local] Set Warnings "-clear-no-such-hyp".

(** ** Strings *)

(** [prefix p s]: [s.startswith(p)]. *)
Fixpoint str_prefix (p s : string) : bool :=
  match p, s with
  | EmptyString, _ => true
  | String a p', String b s' => bool_decide (a = b) && str_prefix p' s'
  | String _ _, EmptyString => false
  end.

(** [needle in hay] for two Python strings. *)
Fixpoint str_in (needle hay : string) : bool :=
  str_prefix needle hay ||
  match hay with
  | EmptyString => false
  | String _ hay' => str_in needle hay'
  end.

Definition ascii_lower (c : ascii) : ascii :=
  let n := nat_of_ascii c in
  if (65 <=? n)%nat && (n <=? 90)%nat then ascii_of_nat (n + 32) else c.

(** [s.lower()]. *)
Fixpoint lower (s : string) : string :=
  match s with
  | EmptyString => EmptyString
  | String c s' => String (ascii_lower c) (lower s')
  end.

(** Truth value of a Python string: non-empty. *)
Definition truthy (s : string) : bool :=
  match s with
  | EmptyString => false
  | String _ _ => true
  end.

(** ** Data model *)

(** A JSON value the script carries along without looking inside. A number
    is kept as its literal text. *)
#[local] Set Warnings "-register-all".
Inductive json : Type :=
| JNull
| JBool (b : bool)
| JNumber (literal : string)
| JString (s : string)
| JArray (items : list json)
| JObject (members : list (string * json)).

Record EnvEntry : Type := mkEnv {
  key : string;
  value : option string;
  scope : option string;
  type : option string
}.

Global Instance EnvEntry_eq_dec : EqDecision EnvEntry.
Proof. solve_decision. Defined.

Record Service : Type := mkService {
  name : option string;
  envs : option (list EnvEntry);
  service_rest : list (string * json)
}.

Record Spec : Type := mkSpec {
  services : option (list Service);
  spec_rest : list (string * json)
}.

(** [os.environ.get(k, d)]. *)
Definition environ_get (environ : gmap string string) (k d : string) : string :=
  default d (environ !! k).

(** [e.get('value', '')]. *)
Definition get_value (e : EnvEntry) : string := default "" (value e).

(** ** Effects *)

Record CompletedProcess : Type := mkCompleted {
  returncode : Z;
  stdout : string;
  stderr : string
}.

Inductive event : Type :=
| Printed (line : string)
| Ran (argv : list string).

(** How a computation ends: with a value, in [sys.exit(code)], or in an
    exception nobody catches (the interpreter then leaves with status 1). *)
Inductive result (A : Type) : Type :=
| Done (a : A)
| Exited (code : Z)
| Raised (exn : string).
Arguments Done {A} a.
Arguments Exited {A} code.
Arguments Raised {A} exn.

Definition Script (A : Type) : Type := (list event * result A)%type.

Definition ret {A} (a : A) : Script A := ([], Done a).

Definition bind {A B} (m : Script A) (k : A → Script B) : Script B :=
  match m with
  | (t, Done a) => let '(t', r) := k a in (t ++ t', r)
  | (t, Exited c) => (t, Exited c)
  | (t, Raised x) => (t, Raised x)
  end.

Notation "'do' x <- m ; k" := (bind m (λ x, k))
  (at level 10, x name, m at level 100, k at level 200).
Notation "m ;; k" := (bind m (λ _, k))
  (at level 100, k at level 200, right associativity).

Definition print (line : string) : Script unit := ([Printed line], Done tt).
Definition sys_exit {A} (code : Z) : Script A := ([], Exited code).
Definition raise {A} (exn : string) : Script A := ([], Raised exn).

(** [for x in xs: body], the loop state threaded through the body. *)
Fixpoint for_each {A S} (xs : list A) (body : A → S → Script S) (s : S) : Script S :=
  match xs with
  | [] => ret s
  | x :: xs' => do s' <- body x s; for_each xs' body s'
  end.

(** The exit status the operating system sees. *)
Definition exit_status {A} (r : result A) : Z :=
  match r with
  | Done _ => 0
  | Exited c => c
  | Raised _ => 1
  end.

(** ** The transformer (lines 49-80 of the script) *)

Definition new_envs (environ : gmap string string) : list EnvEntry :=
  [ mkEnv "JWT_SECRET"
      (Some (environ_get environ "JWT_SECRET" "synoptic-secure-jwt-secret-2025-production-key"))
      (Some "RUN_TIME") (Some "SECRET");
    mkEnv "NEXT_PUBLIC_APP_URL" (Some "https://getsynoptic.com")
      (Some "RUN_AND_BUILD_TIME") None;
    mkEnv "NEXT_PUBLIC_AI_AGENT_LINGUIST_ID"
      (Some (environ_get environ "AI_AGENT_LINGUIST_ID" ""))
      (Some "RUN_AND_BUILD_TIME") None;
    mkEnv "NEXT_PUBLIC_AI_AGENT_PHILOLOGIST_ID"
      (Some (environ_get environ "AI_AGENT_PHILOLOGIST_ID" ""))
      (Some "RUN_AND_BUILD_TIME") None;
    mkEnv "NEXT_PUBLIC_ENABLE_AI_FEATURES" (Some "true")
      (Some "RUN_AND_BUILD_TIME") None ].

(** Body of the loop of lines 63-68: [envs] is the list being appended to. *)
Definition add_new_env (existing_keys : gset string)
    (new_env : EnvEntry) (envs : list EnvEntry) : Script (list EnvEntry) :=
  if truthy (get_value new_env) && bool_decide (key new_env ∉ existing_keys) then
    print ("+ Adding: " +:+ key new_env);;
    ret (envs ++ [new_env])
  else if bool_decide (key new_env ∈ existing_keys) then
    print ("= Already exists: " +:+ key new_env);;
    ret envs
  else ret envs.

(** The test of line 73. *)
Definition hardcoded_database_url (e : EnvEntry) : bool :=
  bool_decide (key e = "DATABASE_URL") && negb (str_in "${" (get_value e)).

(** Body of the loop of lines 72-78: the state is [(deduped, seen)]. *)
Definition dedup_step (e : EnvEntry) (st : list EnvEntry * gset string)
    : Script (list EnvEntry * gset string) :=
  let '(deduped, seen) := st in
  if hardcoded_database_url e then
    print "- Removing duplicate: DATABASE_URL (hardcoded)";;
    ret (deduped, seen)
  else if bool_decide (key e ∉ seen) then
    ret (deduped ++ [e], {[key e]} ∪ seen)
  else ret (deduped, seen).

(** Lines 52-68: the env list after the candidates have been appended. *)
Definition merge_new_envs (environ : gmap string string) (envs : list EnvEntry)
    : Script (list EnvEntry) :=
  let existing_keys : gset string := list_to_set (key <$> envs) in
  for_each (new_envs environ) (add_new_env existing_keys) envs.

(** Lines 70-78: the loop that fills [deduped]. *)
Definition dedup_envs (envs : list EnvEntry) : Script (list EnvEntry) :=
  do st <- for_each envs dedup_step ([], ∅);
  ret st.1.

(** Lines 51-80 on the env list of one target service. *)
Definition update_envs (environ : gmap string string) (envs : list EnvEntry)
    : Script (list EnvEntry) :=
  do envs' <- merge_new_envs environ envs;
  do deduped <- dedup_envs envs';
  print ("Total envs: " +:+ pretty (length deduped));;
  ret deduped.

(** Body of the loop of line 49. *)
Definition update_service (environ : gmap string string) (service : Service)
    : Script Service :=
  if bool_decide (name service = Some "synoptic-web") then
    do deduped <- update_envs environ (default [] (envs service));
    ret (mkService (name service) (Some deduped) (service_rest service))
  else ret service.

Fixpoint update_services (environ : gmap string string) (l : list Service)
    : Script (list Service) :=
  match l with
  | [] => ret []
  | service :: l' =>
      do service' <- update_service environ service;
      do l'' <- update_services environ l';
      ret (service' :: l'')
  end.

(** The transformer: lines 49-80 on the whole specification. *)
Definition transform (environ : gmap string string) (spec : Spec) : Script Spec :=
  match services spec with
  | None => ret spec
  | Some l =>
      do l' <- update_services environ l;
      ret (mkSpec (Some l') (spec_rest spec))
  end.

(** ** The whole script (lines 22-96) *)

(** What [parser.parse_args()] (line 26) makes of the command line. It
    returns a namespace when the command line holds nothing but [--token]
    and [--app-id] with their values: [Parsed] records for each of the two
    whether it was given, and with which value. On [-h] or [--help] it
    prints its help text and leaves with status 0. On anything else (an
    unknown flag, a flag without a value, a positional argument) it writes
    a usage message to the error stream, which the trace does not record,
    and leaves with status 2. *)
Inductive parse_outcome : Type :=
| Parsed (flag_token flag_app_id : option string)
| Help (text : list string)
| Rejected.

Section Main.
(** [subprocess.run(argv, capture_output=True, text=True)]. *)
Variable subprocess_run : list string → CompletedProcess.
(** [json.loads(text)['app']['spec']] read into the data model; [None]
    when the text is not JSON or a member is missing (an exception). *)
Variable load_spec : string → option Spec.
(** [json.dumps({"spec": spec})]. *)
Variable dump_spec : Spec → string.

Definition run (argv : list string) : Script CompletedProcess :=
  ([Ran argv], Done (subprocess_run argv)).

Definition api_url (app_id : string) : string :=
  "https://api.digitalocean.com/v2/apps/" +:+ app_id.

Definition curl_get (token app_id : string) : list string :=
  ["curl"; "-s"; "-X"; "GET";
   "-H"; "Content-Type: application/json";
   "-H"; "Authorization: Bearer " +:+ token;
   api_url app_id].

Definition curl_put (token app_id body : string) : list string :=
  ["curl"; "-s"; "-X"; "PUT";
   "-H"; "Content-Type: application/json";
   "-H"; "Authorization: Bearer " +:+ token;
   "-d"; body;
   api_url app_id].

(** The fetcher: lines 33-47. *)
Definition fetch (token app_id : string) : Script Spec :=
  print "Fetching current app spec...";;
  do result <- run (curl_get token app_id);
  (if bool_decide (returncode result ≠ 0%Z) then
     print ("Error fetching app: " +:+ stderr result);;
     sys_exit 1
   else ret tt);;
  from_option ret (raise "json.loads") (load_spec (stdout result)).

(** What the PUT of [spec] comes back with. *)
Definition put_result (token app_id : string) (spec : Spec) : CompletedProcess :=
  subprocess_run (curl_put token app_id (dump_spec spec)).

(** The pusher: lines 82-96. *)
Definition push (token app_id : string) (spec : Spec) : Script unit :=
  print "Applying update to DigitalOcean...";;
  do apply_result <- run (curl_put token app_id (dump_spec spec));
  (if str_in "error" (lower (stdout apply_result)) then
     print ("Error: " +:+ stdout apply_result);;
     sys_exit 1
   else ret tt);;
  print "✓ App Platform environment variables updated successfully!";;
  print "A new deployment will start automatically.".

(** Lines 33-96, once both credentials are known to be non-empty. *)
Definition sync (environ : gmap string string) (token app_id : string)
    : Script unit :=
  do spec <- fetch token app_id;
  do spec' <- transform environ spec;
  push token app_id spec'.

(** [not x] for an argument that is [None] or a string. *)
Definition py_not (x : option string) : bool :=
  match x with
  | None => true
  | Some s => negb (truthy s)
  end.

(** [main] once [parse_args] has returned (lines 24-25 and 28-96):
    [flag_token] and [flag_app_id] are the values of [--token] and
    [--app-id] when given on the command line; the defaults come from the
    environment. *)
Definition main (flag_token flag_app_id : option string)
    (environ : gmap string string) : Script unit :=
  let args_token := from_option Some (environ !! "DO_TOKEN") flag_token in
  let args_app_id := from_option Some (environ !! "DO_APP_ID") flag_app_id in
  (if py_not args_token || py_not args_app_id then
     print "Error: DO_TOKEN and DO_APP_ID are required";;
     print "Set them as environment variables or pass --token and --app-id";;
     sys_exit 1
   else ret tt);;
  sync environ (default "" args_token) (default "" args_app_id).

(** [argparse] reading the command line. *)
Variable parse_args : list string → parse_outcome.

(** [main], lines 22-96, on the command line [argv]. *)
Definition script (argv : list string) (environ : gmap string string)
    : Script unit :=
  match parse_args argv with
  | Parsed flag_token flag_app_id => main flag_token flag_app_id environ
  | Help text => (Printed <$> text, Exited 0)
  | Rejected => ([], Exited 2)
  end.
End Main.

(** ** Vocabulary of the properties *)

(** The computation ends normally with value [a]. *)
Definition returns {A} (m : Script A) (a : A) : Prop := m.2 = Done a.

Definition keys (l : list EnvEntry) : list string := key <$> l.

(** The value contains the substitution marker. *)
Definition templated (e : EnvEntry) : Prop := str_in "${" (get_value e) = true.



(** The entries of [l] with key [k], in order. *)
Definition with_key (k : string) (l : list EnvEntry) : list EnvEntry :=
  filter (λ x, key x = k) l.

(** The test of line 64. *)
Definition addable (existing_keys : gset string) (c : EnvEntry) : bool :=
  truthy (get_value c) && bool_decide (key c ∉ existing_keys).

(** The candidates the first loop appends to [envs]. *)
Definition added (environ : gmap string string) (envs : list EnvEntry) : list EnvEntry :=
  filter (λ c, addable (list_to_set (keys envs)) c) (new_envs environ).

(** What the second loop adds to [deduped] from [l] when it starts with the
    keys [seen]. *)
Fixpoint dedup_from (seen : gset string) (l : list EnvEntry) : list EnvEntry :=
  match l with
  | [] => []
  | e :: l' =>
      if hardcoded_database_url e then dedup_from seen l'
      else if bool_decide (key e ∉ seen) then e :: dedup_from ({[key e]} ∪ seen) l'
      else dedup_from seen l'
  end.

(** [body] contains [w] up to the case of ASCII letters. *)
Definition contains_ignoring_case (w body : string) : Prop :=
  ∃ pre mid post, body = pre +:+ mid +:+ post ∧ lower mid = lower w.

(** ** Sample inputs *)

Definition db_literal : EnvEntry :=
  mkEnv "DATABASE_URL" (Some "postgres://literal") None None.

Definition db_templated : EnvEntry :=
  mkEnv "DATABASE_URL" (Some "${db.DATABASE_URL}") None None.

Definition jwt_fallback : EnvEntry :=
  mkEnv "JWT_SECRET" (Some "synoptic-secure-jwt-secret-2025-production-key")
    (Some "RUN_TIME") (Some "SECRET").

Definition app_url : EnvEntry :=
  mkEnv "NEXT_PUBLIC_APP_URL" (Some "https://getsynoptic.com")
    (Some "RUN_AND_BUILD_TIME") None.

Definition enable_ai : EnvEntry :=
  mkEnv "NEXT_PUBLIC_ENABLE_AI_FEATURES" (Some "true")
    (Some "RUN_AND_BUILD_TIME") None.

(** A specification with the single service [synoptic-web] and the env list
    [l], and nothing else. *)
Definition web_spec (l : list EnvEntry) : Spec :=
  mkSpec (Some [mkService (Some "synoptic-web") (Some l) []]) [].

(** A specification with two services, neither named [synoptic-web]. *)
Definition other_services_spec : Spec :=
  mkSpec (Some [mkService (Some "api") (Some [db_literal; db_literal]) [];
                mkService None None [("kind", JString "worker")]])
         [("region", JString "fra")].

(** A [JWT_SECRET] the service sets itself. *)
Definition own_jwt : EnvEntry :=
  mkEnv "JWT_SECRET" (Some "mine") (Some "RUN_AND_BUILD_TIME") None.

(** A run in which the GET succeeds and the PUT cannot reach the server:
    curl leaves with status 7 and, being silent, without any output.
    The text the GET returns stands for the JSON document of the
    application; [sample_load_spec] reads it. *)
Definition unreachable_put (argv : list string) : CompletedProcess :=
  if bool_decide ("PUT" ∈ argv) then mkCompleted 7 "" ""
  else mkCompleted 0 "<app document>" "".

Definition sample_load_spec (text : string) : option Spec :=
  if bool_decide (text = "<app document>") then Some (web_spec [db_literal])
  else None.

Definition sample_dump_spec (spec : Spec) : string := "<spec document>".

(** A run in which the GET itself fails. *)
Definition unreachable_get (argv : list string) : CompletedProcess :=
  mkCompleted 6 "" "curl: (6) Could not resolve host".

(** ** Three statements the script does not satisfy *)


(** A templated [DATABASE_URL] that refers to another component. *)
Definition db_other_templated : EnvEntry :=
  mkEnv "DATABASE_URL" (Some "${other.DATABASE_URL}") None None.

(** Every [DATABASE_URL] entry of [envs] with value [postgres://literal] is
    removed and every one with value [${db.DATABASE_URL}] is retained. *)
Definition literal_removed_templated_retained (environ : gmap string string)
    (envs : list EnvEntry) : Prop :=
  ∃ out, returns (update_envs environ envs) out ∧
    (∀ e, e ∈ envs → key e = "DATABASE_URL" →
          value e = Some "postgres://literal" → e ∉ out) ∧
    (∀ e, e ∈ envs → key e = "DATABASE_URL" →
          value e = Some "${db.DATABASE_URL}" → e ∈ out).

(** Of the entries of [envs] that share a key, only the first survives. *)
Definition only_first_survives (environ : gmap string string)
    (envs : list EnvEntry) : Prop :=
  ∀ l1 e l2, envs = l1 ++ e :: l2 → key e ∉ keys l1 → key e ∈ keys l2 →
    ∃ out, returns (update_envs environ envs) out ∧ with_key (key e) out = [e].

(** ** Vocabulary of the script-level properties *)

(** What argparse leaves in [args.token] or [args.app_id]: the flag when it
    is given, else the value of the environment variable [var]. *)
Definition arg_value (flag : option string) (environ : gmap string string)
    (var : string) : option string :=
  from_option Some (environ !! var) flag.

(** A credential the test of line 28 lets through: there and not empty. *)
Definition given (x : option string) (s : string) : Prop := x = Some s ∧ s ≠ "".

(** The commands a trace has run, in order. *)
Definition commands (t : list event) : list (list string) :=
  omap (λ ev, match ev with Ran argv => Some argv | Printed _ => None end) t.

(** The lines a trace has printed, in order. *)
Definition lines (t : list event) : list string :=
  omap (λ ev, match ev with Printed line => Some line | Ran _ => None end) t.

(** The two lines of line 29-30. *)
Definition usage_lines : list event :=
  [Printed "Error: DO_TOKEN and DO_APP_ID are required";
   Printed "Set them as environment variables or pass --token and --app-id"].

(** A reader of three shapes of command line, for the examples: no
    argument, both flags with their values, and a request for help. *)
Definition sample_parse_args (argv : list string) : parse_outcome :=
  if bool_decide (argv = []) then Parsed None None
  else if bool_decide (argv = ["--help"]) then
    Help ["usage: update_do_spec.py [-h] [--token TOKEN] [--app-id APP_ID]"]
  else
    match argv with
    | [flag1; token; flag2; app_id] =>
        if bool_decide (flag1 = "--token" ∧ flag2 = "--app-id")
        then Parsed (Some token) (Some app_id)
        else Rejected
    | _ => Rejected
    end.

(** A run whose GET returns a text that is no application document. *)
Definition garbled_get (argv : list string) : CompletedProcess :=
  mkCompleted 0 "<html>502 Bad Gateway</html>" "".

(** ** The monad *)

Lemma returns_ret {A} (a : A) : returns (ret a) a.
Proof. reflexivity. Qed.

Lemma returns_inj {A} (m : Script A) (a b : A) : returns m a → returns m b → a = b.
Proof. unfold returns. congruence. Qed.

Lemma returns_bind {A B} (m : Script A) (k : A → Script B) a b :
  returns m a → returns (k a) b → returns (bind m k) b.
Proof.
  unfold returns, bind. destruct m as [t r]; simpl. intros ->.
  destruct (k a) as [t' r']; simpl. auto.
Qed.

Lemma returns_print_then {A} (line : string) (m : Script A) a :
  returns m a → returns (print line;; m) a.
Proof. intros H. eapply returns_bind; [reflexivity | exact H]. Qed.

(** ** The two loops, as functions on lists *)

Lemma add_new_env_returns K c envs :
  returns (add_new_env K c envs) (if addable K c then envs ++ [c] else envs).
Proof.
  unfold add_new_env, addable.
  destruct (truthy (get_value c) && bool_decide (key c ∉ K)); [reflexivity|].
  destruct (bool_decide (key c ∈ K)); reflexivity.
Qed.

Lemma for_each_add_returns K cands envs :
  returns (for_each cands (add_new_env K) envs)
          (envs ++ filter (λ c, addable K c) cands).
Proof.
  revert envs. induction cands as [|c cands IH]; intros envs; cbn [for_each].
  - rewrite filter_nil, app_nil_r. apply returns_ret.
  - eapply returns_bind; [apply add_new_env_returns|].
    rewrite filter_cons. destruct (addable K c); simpl.
    + replace (envs ++ c :: filter (λ c0, addable K c0) cands)
        with ((envs ++ [c]) ++ filter (λ c0, addable K c0) cands)
        by (by rewrite <- app_assoc).
      apply IH.
    + apply IH.
Qed.

Lemma merge_new_envs_returns environ envs :
  returns (merge_new_envs environ envs) (envs ++ added environ envs).
Proof. apply for_each_add_returns. Qed.

Lemma dedup_step_returns e deduped seen :
  returns (dedup_step e (deduped, seen))
    (if hardcoded_database_url e then (deduped, seen)
     else if bool_decide (key e ∉ seen) then (deduped ++ [e], {[key e]} ∪ seen)
     else (deduped, seen)).
Proof.
  unfold dedup_step. destruct (hardcoded_database_url e); [reflexivity|].
  destruct (bool_decide (key e ∉ seen)); reflexivity.
Qed.

Lemma for_each_dedup_returns l deduped seen :
  ∃ seen', returns (for_each l dedup_step (deduped, seen))
                   (deduped ++ dedup_from seen l, seen').
Proof.
  revert deduped seen.
  induction l as [|e l IH]; intros deduped seen; cbn [for_each dedup_from].
  - exists seen. rewrite app_nil_r. apply returns_ret.
  - destruct (hardcoded_database_url e) eqn:Eh.
    + destruct (IH deduped seen) as [seen' H]. exists seen'.
      eapply returns_bind; [apply dedup_step_returns|]. by rewrite Eh.
    + destruct (bool_decide (key e ∉ seen)) eqn:Es.
      * destruct (IH (deduped ++ [e]) ({[key e]} ∪ seen)) as [seen' H].
        exists seen'. eapply returns_bind; [apply dedup_step_returns|].
        rewrite Eh, Es. by rewrite <- app_assoc in H.
      * destruct (IH deduped seen) as [seen' H]. exists seen'.
        eapply returns_bind; [apply dedup_step_returns|]. by rewrite Eh, Es.
Qed.

Lemma dedup_envs_returns l : returns (dedup_envs l) (dedup_from ∅ l).
Proof.
  destruct (for_each_dedup_returns l [] ∅) as [seen' H].
  eapply returns_bind; [exact H|]. reflexivity.
Qed.

(** The env list [update_envs] computes. *)
Lemma update_envs_returns environ envs :
  returns (update_envs environ envs) (dedup_from ∅ (envs ++ added environ envs)).
Proof.
  eapply returns_bind; [apply merge_new_envs_returns|].
  eapply returns_bind; [apply dedup_envs_returns|].
  apply returns_print_then, returns_ret.
Qed.

Lemma update_service_returns environ service :
  returns (update_service environ service)
    (if bool_decide (name service = Some "synoptic-web") then
       mkService (name service)
         (Some (dedup_from ∅ (default [] (envs service)
                               ++ added environ (default [] (envs service)))))
         (service_rest service)
     else service).
Proof.
  unfold update_service. case_bool_decide; [|apply returns_ret].
  eapply returns_bind; [apply update_envs_returns|]. apply returns_ret.
Qed.

Lemma update_services_total environ l :
  ∃ l', returns (update_services environ l) l' ∧
        Forall2 (λ s s', returns (update_service environ s) s') l l'.
Proof.
  induction l as [|s l [l' [H1 H2]]]; simpl.
  - exists []. split; [apply returns_ret | constructor].
  - eexists (_ :: l'). split.
    + eapply returns_bind; [apply update_service_returns|].
      eapply returns_bind; [exact H1|]. apply returns_ret.
    + constructor; [apply update_service_returns | exact H2].
Qed.

(** ** The second loop: what stays and what goes *)

Lemma hardcoded_true e :
  hardcoded_database_url e = true ↔
  key e = "DATABASE_URL" ∧ str_in "${" (get_value e) = false.
Proof.
  unfold hardcoded_database_url.
  rewrite andb_true_iff, bool_decide_eq_true, negb_true_iff. tauto.
Qed.

Lemma hardcoded_false e :
  hardcoded_database_url e = false ↔
  key e ≠ "DATABASE_URL" ∨ str_in "${" (get_value e) = true.
Proof.
  unfold hardcoded_database_url.
  rewrite andb_false_iff, bool_decide_eq_false, negb_false_iff. tauto.
Qed.

Lemma dedup_from_elem seen l e :
  e ∈ dedup_from seen l →
  e ∈ l ∧ hardcoded_database_url e = false ∧ key e ∉ seen.
Proof.
  revert seen. induction l as [|x l IH]; intros seen; simpl.
  - intros H. by apply not_elem_of_nil in H.
  - destruct (hardcoded_database_url x) eqn:Eh.
    + intros H. destruct (IH _ H) as (? & ? & ?). split_and!; [by right|done|done].
    + case_bool_decide as Es.
      * rewrite elem_of_cons. intros [->|H].
        -- split_and!; [by left|done|done].
        -- destruct (IH _ H) as (? & ? & Hs). split_and!; [by right|done|].
           intros Hin. apply Hs. apply elem_of_union. by right.
      * intros H. destruct (IH _ H) as (? & ? & ?). split_and!; [by right|done|done].
Qed.

Lemma dedup_from_sublist seen l : dedup_from seen l `sublist_of` l.
Proof.
  revert seen. induction l as [|x l IH]; intros seen; simpl.
  - constructor.
  - destruct (hardcoded_database_url x); [by apply sublist_cons|].
    case_bool_decide; [by apply sublist_skip | by apply sublist_cons].
Qed.

Lemma dedup_from_NoDup seen l : NoDup (keys (dedup_from seen l)).
Proof.
  revert seen. induction l as [|x l IH]; intros seen; simpl.
  - constructor.
  - destruct (hardcoded_database_url x); [apply IH|].
    case_bool_decide; [|apply IH].
    unfold keys. rewrite fmap_cons. constructor; [|apply IH].
    rewrite list_elem_of_fmap. intros (y & Hk & Hy).
    apply dedup_from_elem in Hy as (_ & _ & Hy). set_solver.
Qed.


Lemma dedup_from_keeps seen l1 e l2 :
  hardcoded_database_url e = false → key e ∉ seen →
  (∀ x, x ∈ l1 → key x = key e → hardcoded_database_url x = true) →
  e ∈ dedup_from seen (l1 ++ e :: l2).
Proof.
  intros He. revert seen. induction l1 as [|x l1 IH]; intros seen Hs Hl1; simpl.
  - rewrite He. rewrite bool_decide_eq_true_2 by done. by left.
  - assert (Hl1' : ∀ y, y ∈ l1 → key y = key e → hardcoded_database_url y = true).
    { intros y Hy. apply Hl1. by right. }
    destruct (hardcoded_database_url x) eqn:Eh; [by apply IH|].
    case_bool_decide; [|by apply IH].
    right. apply IH; [|done].
    assert (key x ≠ key e).
    { intros Hk. specialize (Hl1 x (list_elem_of_here _ _) Hk). congruence. }
    set_solver.
Qed.

Lemma with_key_absent k l : k ∉ keys l → with_key k l = [].
Proof.
  unfold with_key, keys. induction l as [|x l IH]; intros Hk; [done|].
  rewrite fmap_cons, not_elem_of_cons in Hk. destruct Hk as [Hx Hl].
  rewrite filter_cons, decide_False by done. by apply IH.
Qed.

(** In a list without repeated keys, an entry is alone with its key. *)
Lemma with_key_NoDup l e :
  NoDup (keys l) → e ∈ l → with_key (key e) l = [e].
Proof.
  induction l as [|x l IH]; intros Hnd He.
  - inversion He.
  - unfold keys in Hnd. rewrite fmap_cons in Hnd.
    apply NoDup_cons in Hnd as [Hx Hnd].
    unfold with_key. rewrite filter_cons.
    destruct (decide (x = e)) as [->|Hne].
    + rewrite decide_True by done. f_equal. by apply with_key_absent.
    + apply elem_of_cons in He as [->|He]; [done|].
      rewrite decide_False; [by apply IH|].
      intros Hk. apply Hx. rewrite Hk. apply list_elem_of_fmap. eauto.
Qed.

Lemma dedup_from_id seen l :
  NoDup (keys l) →
  (∀ e, e ∈ l → hardcoded_database_url e = false ∧ key e ∉ seen) →
  dedup_from seen l = l.
Proof.
  unfold keys. revert seen. induction l as [|x l IH]; intros seen Hnd Hl; simpl; [done|].
  rewrite fmap_cons in Hnd. apply NoDup_cons in Hnd as [Hx Hnd].
  destruct (Hl x (list_elem_of_here _ _)) as [-> Hs].
  rewrite bool_decide_eq_true_2 by done. f_equal. apply IH; [done|].
  intros e He. destruct (Hl e) as [? ?]; [by right|]. split; [done|].
  assert (key e ≠ key x).
  { intros Hk. apply Hx. rewrite <- Hk. apply list_elem_of_fmap. eauto. }
  set_solver.
Qed.

Lemma dedup_from_app seen l l' :
  dedup_from seen (l ++ l') =
  dedup_from seen l
    ++ dedup_from (list_to_set (keys (dedup_from seen l)) ∪ seen) l'.
Proof.
  revert seen. induction l as [|x l IH]; intros seen; simpl.
  - f_equal. set_solver.
  - destruct (hardcoded_database_url x); [apply IH|].
    case_bool_decide; [|apply IH].
    simpl. f_equal. rewrite IH. do 2 f_equal. set_solver.
Qed.

(** ** The candidates *)

Lemma new_envs_keys environ :
  keys (new_envs environ) =
  ["JWT_SECRET"; "NEXT_PUBLIC_APP_URL"; "NEXT_PUBLIC_AI_AGENT_LINGUIST_ID";
   "NEXT_PUBLIC_AI_AGENT_PHILOLOGIST_ID"; "NEXT_PUBLIC_ENABLE_AI_FEATURES"].
Proof. reflexivity. Qed.

Lemma new_envs_NoDup environ : NoDup (keys (new_envs environ)).
Proof.
  rewrite new_envs_keys.
  repeat (apply NoDup_cons; split;
          [rewrite ?not_elem_of_cons; split_and?; (discriminate || apply not_elem_of_nil)|]).
  apply NoDup_nil_2.
Qed.

Lemma new_envs_key_ne environ c :
  c ∈ new_envs environ → key c ≠ "DATABASE_URL".
Proof.
  intros Hc Hk.
  assert (H : key c ∈ keys (new_envs environ)) by (apply list_elem_of_fmap; eauto).
  rewrite new_envs_keys, Hk in H.
  repeat (apply elem_of_cons in H as [H|H]; [discriminate|]). inversion H.
Qed.

Lemma new_envs_not_hardcoded environ c :
  c ∈ new_envs environ → hardcoded_database_url c = false.
Proof. intros Hc. apply hardcoded_false. left. by eapply new_envs_key_ne. Qed.

Lemma added_elem environ envs c :
  c ∈ added environ envs ↔
  c ∈ new_envs environ ∧ truthy (get_value c) = true ∧ key c ∉ keys envs.
Proof.
  unfold added, addable. rewrite list_elem_of_filter.
  rewrite andb_True, Is_true_true, bool_decide_spec, not_elem_of_list_to_set.
  tauto.
Qed.

Lemma added_sublist environ envs : added environ envs `sublist_of` new_envs environ.
Proof. apply sublist_filter. Qed.

Lemma added_NoDup environ envs : NoDup (keys (added environ envs)).
Proof.
  eapply sublist_NoDup; [apply new_envs_NoDup|].
  apply fmap_sublist, added_sublist.
Qed.

(** The second loop keeps every appended candidate: the final list is the
    deduplicated original list followed by the appended candidates. *)
Lemma dedup_merged environ envs :
  dedup_from ∅ (envs ++ added environ envs) =
  dedup_from ∅ envs ++ added environ envs.
Proof.
  rewrite dedup_from_app. f_equal.
  apply dedup_from_id; [apply added_NoDup|].
  intros c [Hc [_ Hk]]%added_elem. split; [by eapply new_envs_not_hardcoded|].
  rewrite elem_of_union, elem_of_list_to_set. intros [Hin|Hin]; [|set_solver].
  apply Hk. eapply elem_of_sublist; [exact Hin|].
  apply fmap_sublist, dedup_from_sublist.
Qed.

Lemma update_envs_final environ envs :
  returns (update_envs environ envs) (dedup_from ∅ envs ++ added environ envs).
Proof. rewrite <- dedup_merged. apply update_envs_returns. Qed.

(** ** Substrings and case folding *)

Lemma str_prefix_spec p s : str_prefix p s = true ↔ ∃ t, s = p +:+ t.
Proof.
  revert s. induction p as [|a p IH]; intros s; simpl.
  - split; [intros _; by exists s | done].
  - destruct s as [|b s].
    + split; [done | intros [t Ht]; discriminate].
    + rewrite andb_true_iff, bool_decide_eq_true, IH. split.
      * intros [-> [t ->]]. by exists t.
      * intros [t Ht]. injection Ht as -> ->. eauto.
Qed.

Lemma str_in_spec needle hay :
  str_in needle hay = true ↔ ∃ pre post, hay = pre +:+ needle +:+ post.
Proof.
  induction hay as [|c hay IH]; simpl.
  - rewrite orb_false_r, str_prefix_spec. split.
    + intros [t Ht]. by exists "", t.
    + intros (pre & post & H). destruct pre; [by exists post | discriminate].
  - rewrite orb_true_iff, str_prefix_spec, IH. split.
    + intros [[t Ht] | (pre & post & ->)].
      * by exists "", t.
      * by exists (String c pre), post.
    + intros (pre & post & H). destruct pre as [|c' pre]; simpl in H.
      * left. by exists post.
      * right. injection H as -> ->. eauto.
Qed.

Lemma lower_app a b : lower (a +:+ b) = lower a +:+ lower b.
Proof. induction a as [|c a IH]; simpl; [done | by rewrite IH]. Qed.

Lemma lower_split s a b :
  lower s = a +:+ b → ∃ a' b', s = a' +:+ b' ∧ lower a' = a ∧ lower b' = b.
Proof.
  revert s. induction a as [|c a IH]; intros s; simpl.
  - intros H. by exists "", s.
  - destruct s as [|d s]; simpl; [discriminate|].
    intros H. injection H as Hc Hs.
    destruct (IH _ Hs) as (a' & b' & -> & <- & <-).
    exists (String d a'), b'. simpl. by rewrite Hc.
Qed.

(** Searching the folded text for a folded word is searching the text for
    the word up to case. *)
Lemma str_in_lower w body :
  str_in (lower w) (lower body) = true ↔ contains_ignoring_case w body.
Proof.
  unfold contains_ignoring_case. rewrite str_in_spec. split.
  - intros (pre & post & H).
    destruct (lower_split _ _ _ H) as (pre' & rest & -> & _ & Hrest).
    destruct (lower_split _ _ _ Hrest) as (mid & post' & -> & Hmid & _).
    by exists pre', mid, post'.
  - intros (pre & mid & post & -> & Hmid).
    exists (lower pre), (lower post). by rewrite !lower_app, Hmid.
Qed.

(** ** The transformer on a specification *)

Lemma transform_total environ spec :
  ∃ spec', returns (transform environ spec) spec' ∧
    ∀ service', service' ∈ default [] (services spec') →
      ∃ service, service ∈ default [] (services spec) ∧
                 returns (update_service environ service) service'.
Proof.
  unfold transform. destruct (services spec) as [l|] eqn:El.
  - destruct (update_services_total environ l) as (l' & Hl' & HF).
    exists (mkSpec (Some l') (spec_rest spec)). split.
    + eapply returns_bind; [exact Hl'|]. apply returns_ret.
    + simpl. intros service' (i & Hi)%list_elem_of_lookup.
      destruct (Forall2_lookup_r _ _ _ _ _ HF Hi) as (service & Hs & Hr).
      exists service. split; [|done]. apply list_elem_of_lookup. eauto.
  - exists spec. split; [apply returns_ret|]. rewrite El. simpl.
    intros service' H. inversion H.
Qed.



(** ** C1: the invariant of the target service's env list *)




(** ** C2: the end-to-end example *)

(** The candidates when none of the three optional variables is set. *)
Lemma new_envs_unset environ :
  environ !! "JWT_SECRET" = None →
  environ !! "AI_AGENT_LINGUIST_ID" = None →
  environ !! "AI_AGENT_PHILOLOGIST_ID" = None →
  new_envs environ = new_envs ∅.
Proof. intros H1 H2 H3. unfold new_envs, environ_get. by rewrite H1, H2, H3. Qed.

(** C2: on the service [synoptic-web] with the single entry
    [DATABASE_URL = postgres://x], when [JWT_SECRET], [AI_AGENT_LINGUIST_ID]
    and [AI_AGENT_PHILOLOGIST_ID] are unset, the transformer leaves exactly
    [JWT_SECRET] with its hard-coded fallback, [NEXT_PUBLIC_APP_URL] and
    [NEXT_PUBLIC_ENABLE_AI_FEATURES]; no entry has key [DATABASE_URL] or
    one of the two agent-id keys. *)
Theorem C2_end_to_end (environ : gmap string string) :
  environ !! "JWT_SECRET" = None →
  environ !! "AI_AGENT_LINGUIST_ID" = None →
  environ !! "AI_AGENT_PHILOLOGIST_ID" = None →
  ∃ out,
    returns
      (transform environ
         (web_spec [mkEnv "DATABASE_URL" (Some "postgres://x") None None]))
      (web_spec out) ∧
    out = [jwt_fallback; app_url; enable_ai] ∧
    "NEXT_PUBLIC_APP_URL" ∈ keys out ∧
    "NEXT_PUBLIC_ENABLE_AI_FEATURES" ∈ keys out ∧
    jwt_fallback ∈ out ∧
    ("DATABASE_URL" ∉ keys out) ∧
    ("NEXT_PUBLIC_AI_AGENT_LINGUIST_ID" ∉ keys out) ∧
    ("NEXT_PUBLIC_AI_AGENT_PHILOLOGIST_ID" ∉ keys out).
Proof.
  intros H1 H2 H3. exists [jwt_fallback; app_url; enable_ai]. split.
  - unfold transform, web_spec, services, update_services, update_service.
    cbn [name envs service_rest default].
    rewrite bool_decide_eq_true_2 by done.
    unfold update_envs, merge_new_envs. rewrite (new_envs_unset _ H1 H2 H3).
    by vm_compute.
  - split; [done|]. unfold keys. cbn. rewrite !elem_of_cons.
    split_and!; auto;
      intros H; repeat (destruct H as [H|H]; [discriminate|]); inversion H.
Qed.

(** C2 at an environment that only holds the credentials. *)
Lemma C2_end_to_end_witness :
  ∃ out,
    returns
      (transform {["DO_TOKEN" := "t"; "DO_APP_ID" := "a"]}
         (web_spec [mkEnv "DATABASE_URL" (Some "postgres://x") None None]))
      (web_spec out) ∧
    out = [jwt_fallback; app_url; enable_ai].
Proof.
  destruct (C2_end_to_end {["DO_TOKEN" := "t"; "DO_APP_ID" := "a"]})
    as (out & Hr & Ho & _); [by vm_compute | by vm_compute | by vm_compute |].
  exists out. auto.
Defined.

(** ** C4: idempotence *)

Lemma keys_first_split k l :
  k ∈ keys l → ∃ l1 e l2, l = l1 ++ e :: l2 ∧ key e = k ∧ k ∉ keys l1.
Proof.
  unfold keys. induction l as [|x l IH]; intros Hk; [inversion Hk|].
  destruct (decide (key x = k)) as [E|E].
  - exists [], x, l. split_and!; [done | done | apply not_elem_of_nil].
  - rewrite fmap_cons, elem_of_cons in Hk. destruct Hk as [Hk|Hk]; [done|].
    destruct (IH Hk) as (l1 & e & l2 & -> & He & Hl1).
    exists (x :: l1), e, l2. split_and!; [done | done |].
    rewrite fmap_cons, not_elem_of_cons. split; [congruence | done].
Qed.

Lemma filter_none {A} (P : A → Prop) `{∀ x, Decision (P x)} (l : list A) :
  (∀ x, x ∈ l → ¬ P x) → filter P l = [].
Proof.
  induction l as [|x l IH]; intros Hl; [done|].
  rewrite filter_cons, decide_False by (apply Hl; by left).
  apply IH. intros y Hy. apply Hl. by right.
Qed.

(** The first entry of [envs] with a key other than [DATABASE_URL] is in
    the deduplicated list. *)
Lemma dedup_from_keeps_key k envs :
  k ≠ "DATABASE_URL" → k ∈ keys envs → k ∈ keys (dedup_from ∅ envs).
Proof.
  intros Hk (l1 & e & l2 & -> & He & Hl1)%keys_first_split.
  unfold keys. apply list_elem_of_fmap. exists e. split; [done|].
  apply dedup_from_keeps.
  - apply hardcoded_false. left. congruence.
  - apply not_elem_of_empty.
  - intros x Hx Hkx. destruct Hl1. apply list_elem_of_fmap. exists x.
    split; [congruence | done].
Qed.

(** After one run every candidate with a non-empty value has its key in
    the list: a second run appends nothing. *)
Lemma added_after_update environ envs :
  added environ (dedup_from ∅ envs ++ added environ envs) = [].
Proof.
  unfold added at 1. apply filter_none. intros c Hc Ha.
  unfold addable in Ha. apply andb_True in Ha as [Hv Hk].
  apply bool_decide_unpack in Hk. apply Hk, elem_of_list_to_set.
  unfold keys. rewrite fmap_app, elem_of_app.
  destruct (decide (key c ∈ keys envs)) as [Hin|Hin].
  - left. apply dedup_from_keeps_key; [by eapply new_envs_key_ne | done].
  - right. apply list_elem_of_fmap. exists c. split; [done|].
    apply added_elem. split_and!; [done | by apply Is_true_true | done].
Qed.

(** The list one run leaves is kept as it is by the second loop. *)
Lemma dedup_from_final environ envs :
  dedup_from ∅ (dedup_from ∅ envs ++ added environ envs) =
  dedup_from ∅ envs ++ added environ envs.
Proof.
  apply dedup_from_id.
  - rewrite <- dedup_merged. apply dedup_from_NoDup.
  - intros e He. rewrite <- dedup_merged in He.
    apply dedup_from_elem in He as (_ & Hh & _). split; [done | apply not_elem_of_empty].
Qed.

(** C4: the transformer is idempotent on the env list of a target service:
    a run on the list a first run has left returns that same list; its
    first loop appends nothing and its second loop removes nothing. *)
Theorem C4_idempotent (environ : gmap string string) (envs : list EnvEntry) :
  ∃ out, returns (update_envs environ envs) out ∧
         returns (update_envs environ out) out ∧
         returns (merge_new_envs environ out) out ∧
         returns (dedup_envs out) out.
Proof.
  exists (dedup_from ∅ envs ++ added environ envs).
  pose proof (added_after_update environ envs) as Ha.
  pose proof (dedup_from_final environ envs) as Hd.
  split_and!.
  - apply update_envs_final.
  - pose proof (update_envs_returns environ
                  (dedup_from ∅ envs ++ added environ envs)) as H.
    by rewrite Ha, app_nil_r, Hd in H.
  - pose proof (merge_new_envs_returns environ
                  (dedup_from ∅ envs ++ added environ envs)) as H.
    by rewrite Ha, app_nil_r in H.
  - pose proof (dedup_envs_returns (dedup_from ∅ envs ++ added environ envs)) as H.
    by rewrite Hd in H.
Qed.

(** X14. Idempotence on a whole specification: run on the specification it
    has returned, the transformer returns that specification again. *)
Lemma transform_idempotent environ spec :
  ∃ spec', returns (transform environ spec) spec' ∧
           returns (transform environ spec') spec'.
Proof.
  unfold transform. destruct spec as [[l|] rest]; simpl.
  - assert (H : ∃ l', returns (update_services environ l) l' ∧
                      returns (update_services environ l') l').
    { induction l as [|s l (l' & H1 & H2)]; simpl.
      - exists []. split; apply returns_ret.
      - pose proof (update_service_returns environ s) as Hs.
        set (s' := if bool_decide (name s = Some "synoptic-web") then _ else s) in Hs.
        exists (s' :: l'). split.
        + eapply returns_bind; [exact Hs|].
          eapply returns_bind; [exact H1|]. apply returns_ret.
        + simpl. eapply returns_bind; [|eapply returns_bind; [exact H2|apply returns_ret]].
          pose proof (update_service_returns environ s') as Hs'.
          subst s'. case_bool_decide as Ht; [|by rewrite bool_decide_eq_false_2 in Hs'].
          simpl in Hs'. rewrite bool_decide_eq_true_2 in Hs' by done.
          rewrite dedup_merged. rewrite dedup_merged in Hs'.
          by rewrite added_after_update, app_nil_r, dedup_from_final in Hs'. }
    destruct H as (l' & H1 & H2). exists (mkSpec (Some l') rest). split.
    + eapply returns_bind; [exact H1|]. apply returns_ret.
    + simpl. eapply returns_bind; [exact H2|]. apply returns_ret.
  - eexists. split; apply returns_ret.
Qed.

(** ** C5: hard-coded and templated [DATABASE_URL] *)

Lemma update_envs_at environ l1 e l2 :
  returns (update_envs environ (l1 ++ e :: l2))
    (dedup_from ∅ (l1 ++ e :: (l2 ++ added environ (l1 ++ e :: l2)))).
Proof.
  pose proof (update_envs_returns environ (l1 ++ e :: l2)) as H.
  by rewrite <- app_assoc in H.
Qed.

(** C5, as stated, fails: a [DATABASE_URL] entry with value
    [${db.DATABASE_URL}] that comes after another templated [DATABASE_URL]
    entry is dropped as a repeated key (lines 76-78). *)
Lemma C5_later_templated_is_dropped :
  ¬ literal_removed_templated_retained ∅ [db_other_templated; db_templated].
Proof.
  intros (out & Hr & _ & Hkeep).
  assert (Eo : out = [db_other_templated; jwt_fallback; app_url; enable_ai]).
  { eapply returns_inj; [exact Hr|]. by vm_compute. }
  subst out.
  assert (Hin : db_templated ∈ [db_other_templated; jwt_fallback; app_url; enable_ai]).
  { apply Hkeep; [|done|done]. right. by left. }
  repeat (apply elem_of_cons in Hin as [Hin|Hin]; [discriminate|]).
  inversion Hin.
Qed.

(** C5 (amended): an entry of the target service with key [DATABASE_URL]
    and value [postgres://literal] is not in the list the transformer
    leaves; one with value [${db.DATABASE_URL}] is in it when no earlier
    entry of the list has key [DATABASE_URL] and a value with the marker. *)
Theorem C5_database_url (environ : gmap string string)
    (l1 : list EnvEntry) (e : EnvEntry) (l2 : list EnvEntry) :
  key e = "DATABASE_URL" →
  ∃ out, returns (update_envs environ (l1 ++ e :: l2)) out ∧
    (value e = Some "postgres://literal" → e ∉ out) ∧
    (value e = Some "${db.DATABASE_URL}" →
     (∀ x, x ∈ l1 → key x = "DATABASE_URL" → ¬ templated x) →
     e ∈ out).
Proof.
  intros Hk. eexists. split; [apply update_envs_at|]. split.
  - intros Hv (_ & Hh & _)%dedup_from_elem.
    apply hardcoded_false in Hh as [Hh|Hh]; [done|].
    unfold get_value in Hh. rewrite Hv in Hh. discriminate.
  - intros Hv Hl1. apply dedup_from_keeps.
    + apply hardcoded_false. right. unfold get_value. by rewrite Hv.
    + apply not_elem_of_empty.
    + intros x Hx Hkx. apply hardcoded_true. rewrite Hkx. split; [done|].
      apply not_true_is_false, Hl1; [done | congruence].
Qed.

(** C5 on the two one-entry lists. *)
Lemma C5_database_url_witness :
  (∃ out, returns (update_envs ∅ [db_literal]) out ∧ db_literal ∉ out) ∧
  (∃ out, returns (update_envs ∅ [db_templated]) out ∧ db_templated ∈ out).
Proof.
  split.
  - destruct (C5_database_url ∅ [] db_literal [] eq_refl) as (out & Hr & Hl & _).
    exists out. split; [exact Hr | by apply Hl].
  - destruct (C5_database_url ∅ [] db_templated [] eq_refl) as (out & Hr & _ & Ht).
    exists out. split; [exact Hr|]. apply Ht; [done|]. intros x Hx. inversion Hx.
Defined.

(** ** C6: repeated keys *)

(** C6, as stated, fails for the key [DATABASE_URL]: of a hard-coded entry
    followed by a templated one, the first is dropped and the second
    survives. *)
Lemma C6_first_database_url_does_not_survive :
  ¬ only_first_survives ∅ [db_literal; db_templated].
Proof.
  intros H.
  destruct (H [] db_literal [db_templated] eq_refl) as (out & Hr & Hw).
  - apply not_elem_of_nil.
  - by left.
  - assert (Eo : out = [db_templated; jwt_fallback; app_url; enable_ai]).
    { eapply returns_inj; [exact Hr|]. by vm_compute. }
    subst out. vm_compute in Hw. discriminate.
Qed.

(** C6 (amended): of the entries of the target service that share a key
    other than [DATABASE_URL], only the first one is in the list the
    transformer leaves; of the entries with key [DATABASE_URL], only the
    first one whose value contains the marker is. *)
Theorem C6_first_survives (environ : gmap string string)
    (l1 : list EnvEntry) (e : EnvEntry) (l2 : list EnvEntry) :
  ∃ out, returns (update_envs environ (l1 ++ e :: l2)) out ∧
    (key e ≠ "DATABASE_URL" → key e ∉ keys l1 → with_key (key e) out = [e]) ∧
    (key e = "DATABASE_URL" → templated e →
     (∀ x, x ∈ l1 → key x = "DATABASE_URL" → ¬ templated x) →
     with_key "DATABASE_URL" out = [e]).
Proof.
  eexists. split; [apply update_envs_at|]. split.
  - intros Hk Hl1. apply with_key_NoDup; [apply dedup_from_NoDup|].
    apply dedup_from_keeps.
    + apply hardcoded_false. by left.
    + apply not_elem_of_empty.
    + intros x Hx Hkx. destruct Hl1. apply list_elem_of_fmap. eauto.
  - intros Hk Ht Hl1. rewrite <- Hk.
    apply with_key_NoDup; [apply dedup_from_NoDup|].
    apply dedup_from_keeps.
    + apply hardcoded_false. by right.
    + apply not_elem_of_empty.
    + intros x Hx Hkx. apply hardcoded_true. split; [congruence|].
      apply not_true_is_false, Hl1; [done | congruence].
Qed.

(** C6 on two entries that share the key [FOO]. *)
Lemma C6_first_survives_witness :
  ∃ out,
    returns (update_envs ∅ [mkEnv "FOO" (Some "1") None None;
                            mkEnv "FOO" (Some "2") None None]) out ∧
    with_key "FOO" out = [mkEnv "FOO" (Some "1") None None].
Proof.
  destruct (C6_first_survives ∅ [] (mkEnv "FOO" (Some "1") None None)
              [mkEnv "FOO" (Some "2") None None]) as (out & Hr & Hfoo & _).
  exists out. split; [exact Hr|]. apply Hfoo; [discriminate | apply not_elem_of_nil].
Defined.

(** ** C7: an empty env list *)

Lemma added_nil environ :
  added environ [] = filter (λ c, truthy (get_value c)) (new_envs environ).
Proof.
  unfold added. apply list_filter_iff. intros c. unfold addable.
  rewrite andb_True, bool_decide_spec. split; [tauto|].
  intros Hv. split; [done | apply not_elem_of_empty].
Qed.

Lemma truthy_true s : truthy s = true ↔ s ≠ "".
Proof. destruct s; simpl; split; done. Qed.

(** C7: on an empty env list the transformer appends, in this order, those
    of the five candidates of lines 56-60 whose value is a non-empty
    string ([JWT_SECRET] with the value of the variable or the literal of
    line 56, [NEXT_PUBLIC_APP_URL], the two agent ids with the values of
    their variables or the empty string, [NEXT_PUBLIC_ENABLE_AI_FEATURES])
    and nothing else; the length of the list it leaves is the number of
    the five resolved values that are not empty. *)
Theorem C7_empty_env_list (environ : gmap string string) :
  ∃ out,
    returns (update_envs environ []) out ∧
    returns (merge_new_envs environ []) out ∧
    out =
      filter (λ c, get_value c ≠ "")
        [ mkEnv "JWT_SECRET"
            (Some (default "synoptic-secure-jwt-secret-2025-production-key"
                           (environ !! "JWT_SECRET")))
            (Some "RUN_TIME") (Some "SECRET");
          mkEnv "NEXT_PUBLIC_APP_URL" (Some "https://getsynoptic.com")
            (Some "RUN_AND_BUILD_TIME") None;
          mkEnv "NEXT_PUBLIC_AI_AGENT_LINGUIST_ID"
            (Some (default "" (environ !! "AI_AGENT_LINGUIST_ID")))
            (Some "RUN_AND_BUILD_TIME") None;
          mkEnv "NEXT_PUBLIC_AI_AGENT_PHILOLOGIST_ID"
            (Some (default "" (environ !! "AI_AGENT_PHILOLOGIST_ID")))
            (Some "RUN_AND_BUILD_TIME") None;
          mkEnv "NEXT_PUBLIC_ENABLE_AI_FEATURES" (Some "true")
            (Some "RUN_AND_BUILD_TIME") None ] ∧
    length out =
      length
        (filter (λ v : string, v ≠ "")
           [ default "synoptic-secure-jwt-secret-2025-production-key"
                     (environ !! "JWT_SECRET");
             "https://getsynoptic.com";
             default "" (environ !! "AI_AGENT_LINGUIST_ID");
             default "" (environ !! "AI_AGENT_PHILOLOGIST_ID");
             "true" ]).
Proof.
  exists (added environ []).
  assert (Hout : added environ [] =
                 filter (λ c, get_value c ≠ "") (new_envs environ)).
  { rewrite added_nil. apply list_filter_iff. intros c.
    rewrite Is_true_true. apply truthy_true. }
  split_and!.
  - apply (update_envs_final environ []).
  - apply (merge_new_envs_returns environ []).
  - exact Hout.
  - rewrite Hout. unfold new_envs, environ_get.
    destruct (default "synoptic-secure-jwt-secret-2025-production-key"
                      (environ !! "JWT_SECRET"));
      destruct (default "" (environ !! "AI_AGENT_LINGUIST_ID"));
      destruct (default "" (environ !! "AI_AGENT_PHILOLOGIST_ID"));
      reflexivity.
Qed.

(** C7 at three environments: none of the three variables set (three
    entries), all of them set (five), and [JWT_SECRET] set to the empty
    string (two). *)
Lemma C7_empty_env_list_witness :
  (∃ out, returns (update_envs ∅ []) out ∧
          out = [jwt_fallback; app_url; enable_ai] ∧ length out = 3) ∧
  (∃ out,
     returns (update_envs {["JWT_SECRET" := "s3cret"; "AI_AGENT_LINGUIST_ID" := "l1";
                            "AI_AGENT_PHILOLOGIST_ID" := "p1"]} []) out ∧
     out = [mkEnv "JWT_SECRET" (Some "s3cret") (Some "RUN_TIME") (Some "SECRET");
            app_url;
            mkEnv "NEXT_PUBLIC_AI_AGENT_LINGUIST_ID" (Some "l1")
              (Some "RUN_AND_BUILD_TIME") None;
            mkEnv "NEXT_PUBLIC_AI_AGENT_PHILOLOGIST_ID" (Some "p1")
              (Some "RUN_AND_BUILD_TIME") None;
            enable_ai] ∧
     length out = 5) ∧
  (∃ out, returns (update_envs {["JWT_SECRET" := ""]} []) out ∧
          out = [app_url; enable_ai] ∧ length out = 2).
Proof.
  split_and!.
  - destruct (C7_empty_env_list ∅) as (out & Hr & _ & Ho & Hl).
    exists out. split_and!; [exact Hr | by rewrite Ho | by rewrite Hl].
  - destruct (C7_empty_env_list
                {["JWT_SECRET" := "s3cret"; "AI_AGENT_LINGUIST_ID" := "l1";
                  "AI_AGENT_PHILOLOGIST_ID" := "p1"]}) as (out & Hr & _ & Ho & Hl).
    exists out. split_and!; [exact Hr | by rewrite Ho | by rewrite Hl].
  - destruct (C7_empty_env_list {["JWT_SECRET" := ""]}) as (out & Hr & _ & Ho & Hl).
    exists out. split_and!; [exact Hr | by rewrite Ho | by rewrite Hl].
Defined.

(** X16. A service named [synoptic-web] that has no [envs] member at all,
    or an empty one, comes back with an [envs] member holding the
    candidates whose value is not empty, its name and its other members
    unchanged. *)
Lemma update_service_empty environ service :
  name service = Some "synoptic-web" →
  default [] (envs service) = [] →
  returns (update_service environ service)
    (mkService (name service)
       (Some (filter (λ c, truthy (get_value c)) (new_envs environ)))
       (service_rest service)).
Proof.
  intros Hn He. pose proof (update_service_returns environ service) as H.
  rewrite bool_decide_eq_true_2, He in H by done.
  by rewrite (dedup_merged environ []), added_nil in H.
Qed.

(** ** C8: no target service *)

Lemma update_services_noop environ l :
  (∀ service, service ∈ l → name service ≠ Some "synoptic-web") →
  update_services environ l = ([], Done l).
Proof.
  induction l as [|s l IH]; intros Hl; simpl; [done|].
  unfold update_service at 1.
  rewrite bool_decide_eq_false_2 by (apply Hl; by left).
  rewrite IH; [done|]. intros s' Hs'. apply Hl. by right.
Qed.

(** C8: on a specification none of whose services is named
    [synoptic-web] the transformer prints nothing and returns the
    specification it was given: every member of every service, the env
    lists included, is as before. *)
Theorem C8_no_target_noop (environ : gmap string string) (spec : Spec) :
  (∀ service, service ∈ default [] (services spec) →
     name service ≠ Some "synoptic-web") →
  transform environ spec = ([], Done spec).
Proof.
  intros Hs. unfold transform. destruct spec as [[l|] rest]; simpl in *; [|done].
  by rewrite update_services_noop.
Qed.

(** C8 on a specification with two other services. *)
Lemma C8_no_target_noop_witness :
  transform ∅ other_services_spec = ([], Done other_services_spec).
Proof.
  apply C8_no_target_noop. simpl. intros service Hs.
  apply elem_of_cons in Hs as [->|Hs]; [discriminate|].
  apply elem_of_cons in Hs as [->|Hs]; [discriminate|]. inversion Hs.
Defined.

(** ** C10: the entries that were there before *)

(** C10: the list the transformer leaves is a sublist [kept] of the
    original entries, in their order, followed by the candidates the first
    loop has appended, in candidate order, whose keys are all new; an
    original entry whose key
    is not [DATABASE_URL] and which is the first with its key is in [kept],
    and it is the only entry of the final list with that key: no candidate
    replaces its value, scope or type. *)
Theorem C10_original_entries_kept (environ : gmap string string)
    (envs : list EnvEntry) :
  ∃ kept out,
    returns (merge_new_envs environ envs) (envs ++ added environ envs) ∧
    returns (update_envs environ envs) out ∧
    out = kept ++ added environ envs ∧
    kept `sublist_of` envs ∧
    added environ envs `sublist_of` new_envs environ ∧
    (∀ c, c ∈ added environ envs → key c ∉ keys envs) ∧
    ∀ l1 e l2, envs = l1 ++ e :: l2 →
      key e ≠ "DATABASE_URL" → key e ∉ keys l1 →
      e ∈ kept ∧ with_key (key e) out = [e].
Proof.
  exists (dedup_from ∅ envs), (dedup_from ∅ envs ++ added environ envs).
  split_and!.
  - apply merge_new_envs_returns.
  - apply update_envs_final.
  - done.
  - apply dedup_from_sublist.
  - apply added_sublist.
  - intros c Hc. by apply added_elem in Hc as (_ & _ & Hk).
  - intros l1 e l2 -> Hk Hl1.
    assert (He : e ∈ dedup_from ∅ (l1 ++ e :: l2)).
    { apply dedup_from_keeps.
      - apply hardcoded_false. by left.
      - apply not_elem_of_empty.
      - intros x Hx Hkx. destruct Hl1. apply list_elem_of_fmap. eauto. }
    split; [done|]. apply with_key_NoDup.
    + rewrite <- dedup_merged. apply dedup_from_NoDup.
    + apply elem_of_app. by left.
Qed.

(** C10 on a service that already sets [JWT_SECRET]: the entry stays as it
    is and the candidate with the same key is not appended. *)
Lemma C10_original_entries_kept_witness :
  ∃ out, returns (update_envs ∅ [db_literal; own_jwt]) out ∧
         with_key "JWT_SECRET" out = [own_jwt].
Proof.
  destruct (C10_original_entries_kept ∅ [db_literal; own_jwt])
    as (kept & out & _ & Hr & _ & _ & _ & _ & H).
  exists out. split; [exact Hr|].
  apply (H [db_literal] own_jwt [] eq_refl); [discriminate|].
  unfold keys. cbn. rewrite not_elem_of_cons. split; [discriminate | apply not_elem_of_nil].
Defined.

(** ** The fetcher and the pusher *)

Lemma bind_done {A B} (m : Script A) (k : A → Script B) t a t' r :
  m = (t, Done a) → k a = (t', r) → bind m k = (t ++ t', r).
Proof. intros -> H. unfold bind. by rewrite H. Qed.

Lemma bind_exited {A B} (m : Script A) (k : A → Script B) t c :
  m = (t, Exited c) → bind m k = (t, Exited c).
Proof. by intros ->. Qed.

Lemma transform_runs environ spec :
  ∃ t spec', transform environ spec = (t, Done spec').
Proof.
  destruct (transform_total environ spec) as (spec' & Hr & _).
  unfold returns in Hr. destruct (transform environ spec) as [t r].
  simpl in Hr. subst r. eauto.
Qed.

Section MainFacts.
Variable subprocess_run : list string → CompletedProcess.
Variable load_spec : string → option Spec.
Variable dump_spec : Spec → string.

Lemma fetch_ok token app_id spec :
  returncode (subprocess_run (curl_get token app_id)) = 0%Z →
  load_spec (stdout (subprocess_run (curl_get token app_id))) = Some spec →
  fetch subprocess_run load_spec token app_id =
    ([Printed "Fetching current app spec..."; Ran (curl_get token app_id)],
     Done spec).
Proof.
  intros Hc Hl. unfold fetch, run, print, bind.
  rewrite bool_decide_eq_false_2 by (intros H; by apply H).
  rewrite Hl. reflexivity.
Qed.

(** A failed GET: the captured error text is printed, the process leaves
    with status 1, and nothing else is run. *)
Lemma fetch_transport_failure token app_id :
  returncode (subprocess_run (curl_get token app_id)) ≠ 0%Z →
  fetch subprocess_run load_spec token app_id =
    ([Printed "Fetching current app spec..."; Ran (curl_get token app_id);
      Printed ("Error fetching app: "
               +:+ stderr (subprocess_run (curl_get token app_id)))],
     Exited 1).
Proof.
  intros Hc. unfold fetch, run, print, bind.
  rewrite bool_decide_eq_true_2 by done. reflexivity.
Qed.

Lemma push_error token app_id spec :
  str_in "error" (lower (stdout (put_result subprocess_run dump_spec token app_id spec)))
    = true →
  push subprocess_run dump_spec token app_id spec =
    ([Printed "Applying update to DigitalOcean...";
      Ran (curl_put token app_id (dump_spec spec));
      Printed ("Error: "
               +:+ stdout (put_result subprocess_run dump_spec token app_id spec))],
     Exited 1).
Proof.
  unfold put_result. intros H. unfold push, run, print, bind. by rewrite H.
Qed.

Lemma push_ok token app_id spec :
  str_in "error" (lower (stdout (put_result subprocess_run dump_spec token app_id spec)))
    = false →
  push subprocess_run dump_spec token app_id spec =
    ([Printed "Applying update to DigitalOcean...";
      Ran (curl_put token app_id (dump_spec spec));
      Printed "✓ App Platform environment variables updated successfully!";
      Printed "A new deployment will start automatically."],
     Done tt).
Proof.
  unfold put_result. intros H. unfold push, run, print, bind. by rewrite H.
Qed.

(** With both credentials given, [main] is the fetcher, the transformer and
    the pusher in a row. *)
Lemma main_with_credentials environ token app_id :
  truthy token = true → truthy app_id = true →
  main subprocess_run load_spec dump_spec (Some token) (Some app_id) environ =
  sync subprocess_run load_spec dump_spec environ token app_id.
Proof.
  intros Ht Ha. unfold main. cbn [from_option default py_not].
  rewrite Ht, Ha. cbn [negb orb]. unfold ret, bind at 1.
  by destruct (sync _ _ _ _ _ _).
Qed.

(** The GET half of the transport-failure rule. *)
Lemma main_fetch_transport_failure environ token app_id :
  truthy token = true → truthy app_id = true →
  returncode (subprocess_run (curl_get token app_id)) ≠ 0%Z →
  main subprocess_run load_spec dump_spec (Some token) (Some app_id) environ =
    ([Printed "Fetching current app spec..."; Ran (curl_get token app_id);
      Printed ("Error fetching app: "
               +:+ stderr (subprocess_run (curl_get token app_id)))],
     Exited 1).
Proof.
  intros Ht Ha Hc. rewrite main_with_credentials by done. unfold sync.
  eapply bind_exited. by apply fetch_transport_failure.
Qed.

(** Once the specification has been fetched, the script ends the way the
    pusher ends. *)
Lemma main_reaches_push environ token app_id spec :
  truthy token = true → truthy app_id = true →
  returncode (subprocess_run (curl_get token app_id)) = 0%Z →
  load_spec (stdout (subprocess_run (curl_get token app_id))) = Some spec →
  ∃ t spec',
    transform environ spec = (t, Done spec') ∧
    main subprocess_run load_spec dump_spec (Some token) (Some app_id) environ =
      ([Printed "Fetching current app spec..."; Ran (curl_get token app_id)]
         ++ t ++ (push subprocess_run dump_spec token app_id spec').1,
       (push subprocess_run dump_spec token app_id spec').2).
Proof.
  intros Ht Ha Hc Hl. destruct (transform_runs environ spec) as (t & spec' & Htr).
  exists t, spec'. split; [done|]. rewrite main_with_credentials by done.
  unfold sync. eapply bind_done; [by apply fetch_ok|].
  eapply bind_done; [exact Htr|]. by destruct (push _ _ _ _ _).
Qed.

End MainFacts.

Section TransportAndPusher.
Variable subprocess_run : list string → CompletedProcess.
Variable load_spec : string → option Spec.
Variable dump_spec : Spec → string.

(** ** C3: transport failures *)

(** C3 fails on the PUT: the script never looks at the exit status of the
    second curl call. When the specification has been fetched and the PUT
    then ends with a non-zero status and an output without the word it
    searches for (a silent curl prints nothing when it cannot connect), the
    script prints its success lines and leaves with status 0. *)
Theorem C3_put_transport_failure_unnoticed
    (environ : gmap string string) (token app_id : string) (spec : Spec) :
  truthy token = true → truthy app_id = true →
  returncode (subprocess_run (curl_get token app_id)) = 0%Z →
  load_spec (stdout (subprocess_run (curl_get token app_id))) = Some spec →
  (∀ body,
     returncode (subprocess_run (curl_put token app_id body)) ≠ 0%Z ∧
     str_in "error" (lower (stdout (subprocess_run (curl_put token app_id body))))
       = false) →
  ∃ t,
    main subprocess_run load_spec dump_spec (Some token) (Some app_id) environ =
      (t ++ [Printed "✓ App Platform environment variables updated successfully!";
             Printed "A new deployment will start automatically."],
       Done tt) ∧
    exit_status
      (main subprocess_run load_spec dump_spec (Some token) (Some app_id) environ).2
      = 0%Z.
Proof.
  intros Ht Ha Hc Hl Hput.
  destruct (main_reaches_push subprocess_run load_spec dump_spec
              environ token app_id spec Ht Ha Hc Hl) as (t & spec' & _ & Hm).
  destruct (Hput (dump_spec spec')) as [_ Hout].
  rewrite (push_ok subprocess_run dump_spec token app_id spec' Hout) in Hm.
  rewrite Hm. simpl.
  exists (Printed "Fetching current app spec..." :: Ran (curl_get token app_id)
          :: t ++ [Printed "Applying update to DigitalOcean...";
                   Ran (curl_put token app_id (dump_spec spec'))]).
  split; [|done]. f_equal. simpl. f_equal. f_equal. by rewrite <- app_assoc.
Qed.

(** ** C9: the pusher's error test *)

(** C9: when the body of the PUT response contains [error] in any mix of
    upper and lower case, the pusher prints the body after [Error: ] and
    leaves with status 1; for every other body it prints the two success
    lines and ends normally. *)
Theorem C9_pusher_error_test (token app_id : string) (spec : Spec) :
  (contains_ignoring_case "error"
     (stdout (put_result subprocess_run dump_spec token app_id spec)) →
   push subprocess_run dump_spec token app_id spec =
     ([Printed "Applying update to DigitalOcean...";
       Ran (curl_put token app_id (dump_spec spec));
       Printed ("Error: "
                +:+ stdout (put_result subprocess_run dump_spec token app_id spec))],
      Exited 1) ∧
   exit_status (push subprocess_run dump_spec token app_id spec).2 ≠ 0%Z) ∧
  (¬ contains_ignoring_case "error"
       (stdout (put_result subprocess_run dump_spec token app_id spec)) →
   push subprocess_run dump_spec token app_id spec =
     ([Printed "Applying update to DigitalOcean...";
       Ran (curl_put token app_id (dump_spec spec));
       Printed "✓ App Platform environment variables updated successfully!";
       Printed "A new deployment will start automatically."],
      Done tt) ∧
   exit_status (push subprocess_run dump_spec token app_id spec).2 = 0%Z).
Proof.
  split.
  - intros H. apply (str_in_lower "error") in H.
    rewrite (push_error subprocess_run dump_spec token app_id spec H). done.
  - intros H.
    assert (Hf : str_in "error"
              (lower (stdout (put_result subprocess_run dump_spec token app_id spec)))
              = false).
    { apply not_true_is_false. intros Ht. by apply H, (str_in_lower "error"). }
    rewrite (push_ok subprocess_run dump_spec token app_id spec Hf). done.
Qed.

End TransportAndPusher.

(** C3 at a run whose PUT leaves with status 7 and prints nothing. *)
Lemma C3_put_transport_failure_unnoticed_witness :
  returncode (unreachable_put (curl_put "token" "app" "<spec document>")) = 7%Z ∧
  ∃ t,
    main unreachable_put sample_load_spec sample_dump_spec
         (Some "token") (Some "app") ∅ =
      (t ++ [Printed "✓ App Platform environment variables updated successfully!";
             Printed "A new deployment will start automatically."],
       Done tt) ∧
    exit_status
      (main unreachable_put sample_load_spec sample_dump_spec
            (Some "token") (Some "app") ∅).2 = 0%Z.
Proof.
  split; [reflexivity|].
  apply (C3_put_transport_failure_unnoticed unreachable_put sample_load_spec
           sample_dump_spec ∅ "token" "app" (web_spec [db_literal]));
    try reflexivity.
  intros body. split; [discriminate | reflexivity].
Defined.

(** A failed GET at a concrete run: the error text is printed, the status
    is 1 and the PUT is never issued. *)
Example fetch_failure_run :
  main unreachable_get sample_load_spec sample_dump_spec
       (Some "token") (Some "app") ∅ =
    ([Printed "Fetching current app spec...";
      Ran (curl_get "token" "app");
      Printed "Error fetching app: curl: (6) Could not resolve host"],
     Exited 1).
Proof. reflexivity. Qed.

(** C9 at a response that reports an error in capitals, and at one that
    does not. *)
Lemma C9_pusher_error_test_witness :
  exit_status
    (push (λ _, mkCompleted 0 "{id: unauthorized, message: ERROR 401}" "")
          sample_dump_spec "token" "app" (web_spec [])).2 ≠ 0%Z ∧
  exit_status
    (push (λ _, mkCompleted 0 "{app: {id: 42}}" "")
          sample_dump_spec "token" "app" (web_spec [])).2 = 0%Z.
Proof.
  split.
  - apply (C9_pusher_error_test
             (λ _, mkCompleted 0 "{id: unauthorized, message: ERROR 401}" "")
             sample_dump_spec "token" "app" (web_spec [])).
    apply (str_in_lower "error"). reflexivity.
  - apply (C9_pusher_error_test (λ _, mkCompleted 0 "{app: {id: 42}}" "")
             sample_dump_spec "token" "app" (web_spec [])).
    intros H. apply (str_in_lower "error") in H. discriminate.
Defined.

(** ** Credentials (lines 23-31) *)

Lemma py_not_false x : py_not x = false ↔ ∃ s, given x s.
Proof.
  unfold given. destruct x as [[|c s]|]; simpl; split; try done.
  - intros (s & [= <-] & Hs). done.
  - intros _. by eexists.
  - intros (s & [=] & _).
Qed.

Lemma main_py_not
    (subprocess_run : list string → CompletedProcess)
    (load_spec : string → option Spec) (dump_spec : Spec → string)
    flag_token flag_app_id environ :
  py_not (arg_value flag_token environ "DO_TOKEN")
    || py_not (arg_value flag_app_id environ "DO_APP_ID") = true →
  main subprocess_run load_spec dump_spec flag_token flag_app_id environ =
    (usage_lines, Exited 1).
Proof.
  intros H. unfold main. fold (arg_value flag_token environ "DO_TOKEN").
  fold (arg_value flag_app_id environ "DO_APP_ID"). by rewrite H.
Qed.

(** After the command line is read: without a token or without an
    application id, be it missing or empty, the script prints its two usage lines and leaves with status 1; it runs
    no command at all. *)
Theorem missing_credentials_exit
    (subprocess_run : list string → CompletedProcess)
    (load_spec : string → option Spec) (dump_spec : Spec → string)
    (flag_token flag_app_id : option string) (environ : gmap string string) :
  ¬ ((∃ token, given (arg_value flag_token environ "DO_TOKEN") token) ∧
     (∃ app_id, given (arg_value flag_app_id environ "DO_APP_ID") app_id)) →
  main subprocess_run load_spec dump_spec flag_token flag_app_id environ =
    (usage_lines, Exited 1).
Proof.
  intros H. apply main_py_not. apply orb_true_iff.
  destruct (py_not (arg_value flag_token environ "DO_TOKEN")) eqn:Et; [by left|].
  destruct (py_not (arg_value flag_app_id environ "DO_APP_ID")) eqn:Ea; [by right|].
  destruct H. split; by apply py_not_false.
Qed.

(** An empty [--token=] is an error even when [DO_TOKEN] is set. *)
Lemma missing_credentials_exit_witness :
  main unreachable_put sample_load_spec sample_dump_spec
       (Some "") (Some "app") {["DO_TOKEN" := "secret"]} =
    (usage_lines, Exited 1).
Proof.
  apply missing_credentials_exit.
  intros [(token & [= <-] & Hne) _]. by apply Hne.
Defined.

(** With both credentials there, the rest of the script runs with the flag
    where one is given and with the environment variable where not. *)
Lemma main_given
    (subprocess_run : list string → CompletedProcess)
    (load_spec : string → option Spec) (dump_spec : Spec → string)
    flag_token flag_app_id environ token app_id :
  given (arg_value flag_token environ "DO_TOKEN") token →
  given (arg_value flag_app_id environ "DO_APP_ID") app_id →
  main subprocess_run load_spec dump_spec flag_token flag_app_id environ =
  sync subprocess_run load_spec dump_spec environ token app_id.
Proof.
  intros Ht Ha. unfold main. fold (arg_value flag_token environ "DO_TOKEN").
  fold (arg_value flag_app_id environ "DO_APP_ID").
  assert (Et : py_not (arg_value flag_token environ "DO_TOKEN") = false)
    by (apply py_not_false; eauto).
  assert (Ea : py_not (arg_value flag_app_id environ "DO_APP_ID") = false)
    by (apply py_not_false; eauto).
  rewrite Et, Ea. destruct Ht as [-> _], Ha as [-> _]. cbn [orb default].
  unfold ret, bind at 1. by destruct (sync _ _ _ _ _ _).
Qed.

(** ** What the script runs *)

Lemma bind_trace {A B} (m : Script A) (k : A → Script B) :
  (bind m k).1 = m.1 ++ match m.2 with Done a => (k a).1 | _ => [] end.
Proof.
  unfold bind. destruct m as [t [a|c|x]]; simpl; [|by rewrite app_nil_r..].
  by destruct (k a).
Qed.

Lemma commands_app t t' : commands (t ++ t') = commands t ++ commands t'.
Proof. apply omap_app. Qed.

Lemma lines_app t t' : lines (t ++ t') = lines t ++ lines t'.
Proof. apply omap_app. Qed.

Lemma commands_bind_nil {A B} (m : Script A) (k : A → Script B) :
  commands m.1 = [] → (∀ a, commands (k a).1 = []) → commands (bind m k).1 = [].
Proof.
  intros Hm Hk. rewrite bind_trace, commands_app, Hm.
  destruct m.2; [apply Hk | done | done].
Qed.

Lemma commands_for_each_nil {A S} (xs : list A) (body : A → S → Script S) s :
  (∀ x s', commands (body x s').1 = []) → commands (for_each xs body s).1 = [].
Proof.
  intros Hb. revert s. induction xs as [|x xs IH]; intros s; [done|].
  cbn [for_each]. by apply commands_bind_nil.
Qed.

Lemma commands_update_envs environ envs : commands (update_envs environ envs).1 = [].
Proof.
  unfold update_envs. apply commands_bind_nil.
  - apply commands_for_each_nil. intros c l. unfold add_new_env.
    repeat case_match; done.
  - intros l. apply commands_bind_nil; [|done].
    unfold dedup_envs. apply commands_bind_nil; [|done].
    apply commands_for_each_nil. intros e [d seen]. unfold dedup_step.
    repeat case_match; done.
Qed.

Lemma commands_update_services environ l :
  commands (update_services environ l).1 = [].
Proof.
  induction l as [|s l IH]; [done|]. cbn [update_services].
  apply commands_bind_nil.
  - unfold update_service. case_match; [|done].
    apply commands_bind_nil; [apply commands_update_envs | done].
  - intros s'. apply commands_bind_nil; [exact IH | done].
Qed.

(** The transformer runs no command: it only prints. *)
Lemma commands_transform environ spec : commands (transform environ spec).1 = [].
Proof.
  unfold transform. destruct (services spec); [|done].
  apply commands_bind_nil; [apply commands_update_services | done].
Qed.

Section ScriptRuns.
Variable subprocess_run : list string → CompletedProcess.
Variable load_spec : string → option Spec.
Variable dump_spec : Spec → string.

(** X3. When the GET ends with a non-zero status, the script prints what curl
    wrote to its error stream after [Error fetching app: ] and leaves with
    status 1: the response is not parsed and no PUT is run. *)
Theorem get_failure_exit flag_token flag_app_id environ token app_id :
  given (arg_value flag_token environ "DO_TOKEN") token →
  given (arg_value flag_app_id environ "DO_APP_ID") app_id →
  returncode (subprocess_run (curl_get token app_id)) ≠ 0%Z →
  main subprocess_run load_spec dump_spec flag_token flag_app_id environ =
    ([Printed "Fetching current app spec..."; Ran (curl_get token app_id);
      Printed ("Error fetching app: "
               +:+ stderr (subprocess_run (curl_get token app_id)))],
     Exited 1).
Proof.
  intros Ht Ha Hc. rewrite (main_given _ _ _ _ _ _ _ _ Ht Ha). unfold sync.
  eapply bind_exited. by apply fetch_transport_failure.
Qed.

Lemma fetch_unreadable token app_id :
  returncode (subprocess_run (curl_get token app_id)) = 0%Z →
  load_spec (stdout (subprocess_run (curl_get token app_id))) = None →
  fetch subprocess_run load_spec token app_id =
    ([Printed "Fetching current app spec..."; Ran (curl_get token app_id)],
     Raised "json.loads").
Proof.
  intros Hc Hl. unfold fetch, run, print, bind.
  rewrite bool_decide_eq_false_2 by (intros H; by apply H).
  by rewrite Hl.
Qed.

(** X4. When the GET succeeds but its output is no application document, the
    script ends in the exception of line 46-47 (status 1) before the
    transformer prints anything; no PUT is run. *)
Theorem unreadable_response_raises flag_token flag_app_id environ token app_id :
  given (arg_value flag_token environ "DO_TOKEN") token →
  given (arg_value flag_app_id environ "DO_APP_ID") app_id →
  returncode (subprocess_run (curl_get token app_id)) = 0%Z →
  load_spec (stdout (subprocess_run (curl_get token app_id))) = None →
  main subprocess_run load_spec dump_spec flag_token flag_app_id environ =
    ([Printed "Fetching current app spec..."; Ran (curl_get token app_id)],
     Raised "json.loads") ∧
  exit_status
    (main subprocess_run load_spec dump_spec flag_token flag_app_id environ).2
    = 1%Z.
Proof.
  intros Ht Ha Hc Hl. rewrite (main_given _ _ _ _ _ _ _ _ Ht Ha).
  unfold sync, bind at 1. by rewrite (fetch_unreadable _ _ Hc Hl).
Qed.

Lemma sync_fetched environ token app_id spec :
  returncode (subprocess_run (curl_get token app_id)) = 0%Z →
  load_spec (stdout (subprocess_run (curl_get token app_id))) = Some spec →
  ∃ t spec',
    transform environ spec = (t, Done spec') ∧
    sync subprocess_run load_spec dump_spec environ token app_id =
      ([Printed "Fetching current app spec..."; Ran (curl_get token app_id)]
         ++ t ++ (push subprocess_run dump_spec token app_id spec').1,
       (push subprocess_run dump_spec token app_id spec').2).
Proof.
  intros Hc Hl. destruct (transform_runs environ spec) as (t & spec' & Htr).
  exists t, spec'. split; [done|]. unfold sync.
  eapply bind_done; [by apply fetch_ok|].
  eapply bind_done; [exact Htr|]. by destruct (push _ _ _ _ _).
Qed.

Lemma commands_push token app_id spec :
  commands (push subprocess_run dump_spec token app_id spec).1 =
  [curl_put token app_id (dump_spec spec)].
Proof.
  destruct (str_in "error"
              (lower (stdout (put_result subprocess_run dump_spec token app_id spec))))
    eqn:E.
  - by rewrite (push_error _ _ _ _ _ E).
  - by rewrite (push_ok _ _ _ _ _ E).
Qed.

(** X5. Once the specification is fetched, the script runs exactly two
    commands: the GET, then one PUT to the same application with the same
    token, whose body is the specification the transformer has returned;
    this does not depend on what the PUT answers. *)
Theorem fetched_spec_is_put_once flag_token flag_app_id environ token app_id spec :
  given (arg_value flag_token environ "DO_TOKEN") token →
  given (arg_value flag_app_id environ "DO_APP_ID") app_id →
  returncode (subprocess_run (curl_get token app_id)) = 0%Z →
  load_spec (stdout (subprocess_run (curl_get token app_id))) = Some spec →
  ∃ spec',
    returns (transform environ spec) spec' ∧
    commands
      (main subprocess_run load_spec dump_spec flag_token flag_app_id environ).1 =
    [curl_get token app_id; curl_put token app_id (dump_spec spec')].
Proof.
  intros Ht Ha Hc Hl. rewrite (main_given _ _ _ _ _ _ _ _ Ht Ha).
  destruct (sync_fetched environ token app_id spec Hc Hl) as (t & spec' & Htr & ->).
  exists spec'. split; [unfold returns; by rewrite Htr|].
  cbn [fst]. rewrite !commands_app, commands_push.
  pose proof (commands_transform environ spec) as Hs. rewrite Htr in Hs.
  cbn [fst] in Hs. by rewrite Hs.
Qed.

(** After the command line is read, the exit status is 0 or 1, and it is 0
    exactly when both credentials
    are there, the GET ends with status 0, its output is an application
    document, and the body of the PUT response does not contain [error] in
    any case. *)
Theorem exit_status_zero_iff flag_token flag_app_id environ :
  (exit_status
     (main subprocess_run load_spec dump_spec flag_token flag_app_id environ).2
     = 0%Z ∨
   exit_status
     (main subprocess_run load_spec dump_spec flag_token flag_app_id environ).2
     = 1%Z) ∧
  (exit_status
     (main subprocess_run load_spec dump_spec flag_token flag_app_id environ).2
     = 0%Z ↔
   ∃ token app_id spec spec',
     given (arg_value flag_token environ "DO_TOKEN") token ∧
     given (arg_value flag_app_id environ "DO_APP_ID") app_id ∧
     returncode (subprocess_run (curl_get token app_id)) = 0%Z ∧
     load_spec (stdout (subprocess_run (curl_get token app_id))) = Some spec ∧
     returns (transform environ spec) spec' ∧
     ¬ contains_ignoring_case "error"
         (stdout (put_result subprocess_run dump_spec token app_id spec'))).
Proof.
  destruct (py_not (arg_value flag_token environ "DO_TOKEN")) eqn:Et.
  { rewrite main_py_not by (by rewrite Et).
    split; [by right|]. split; [done|].
    intros (token & _ & _ & _ & Ht & _).
    assert (py_not (arg_value flag_token environ "DO_TOKEN") = false)
      by (apply py_not_false; eauto). congruence. }
  destruct (py_not (arg_value flag_app_id environ "DO_APP_ID")) eqn:Ea.
  { rewrite main_py_not by (rewrite Ea; apply orb_true_r).
    split; [by right|]. split; [done|].
    intros (_ & app_id & _ & _ & _ & Ha & _).
    assert (py_not (arg_value flag_app_id environ "DO_APP_ID") = false)
      by (apply py_not_false; eauto). congruence. }
  apply py_not_false in Et as [token Ht]. apply py_not_false in Ea as [app_id Ha].
  assert (Huniq : ∀ token' app_id',
            given (arg_value flag_token environ "DO_TOKEN") token' →
            given (arg_value flag_app_id environ "DO_APP_ID") app_id' →
            token' = token ∧ app_id' = app_id).
  { intros token' app_id' [E1 _] [E2 _]. destruct Ht as [E3 _], Ha as [E4 _].
    split; congruence. }
  rewrite (main_given _ _ _ _ _ _ _ _ Ht Ha).
  destruct (decide (returncode (subprocess_run (curl_get token app_id)) = 0%Z))
    as [Hc|Hc].
  2:{ unfold sync.
      rewrite (bind_exited _ _ _ _ (fetch_transport_failure _ load_spec _ _ Hc)).
      split; [by right|].
      split; [done|]. intros (token' & app_id' & _ & _ & Ht' & Ha' & Hc' & _).
      destruct (Huniq _ _ Ht' Ha') as [-> ->]. done. }
  destruct (load_spec (stdout (subprocess_run (curl_get token app_id)))) as [spec|]
    eqn:Hl.
  2:{ unfold sync, bind at 1. rewrite (fetch_unreadable _ _ Hc Hl).
      split; [by right|]. split; [done|].
      intros (token' & app_id' & spec & _ & Ht' & Ha' & _ & Hl' & _).
      destruct (Huniq _ _ Ht' Ha') as [-> ->]. congruence. }
  destruct (sync_fetched environ token app_id spec Hc Hl) as (t & spec' & Htr & ->).
  cbn [snd].
  assert (Hret : returns (transform environ spec) spec')
    by (unfold returns; by rewrite Htr).
  destruct (str_in "error"
              (lower (stdout (put_result subprocess_run dump_spec token app_id spec'))))
    eqn:E.
  - rewrite (push_error _ _ _ _ _ E). split; [by right|]. split; [done|].
    intros (token' & app_id' & spec0 & spec0' & Ht' & Ha' & _ & Hl' & Hr' & Hne).
    destruct (Huniq _ _ Ht' Ha') as [-> ->].
    assert (spec0 = spec) as -> by congruence.
    rewrite (returns_inj _ _ _ Hr' Hret) in Hne.
    exfalso. apply Hne. apply (str_in_lower "error"). exact E.
  - rewrite (push_ok _ _ _ _ _ E). split; [by left|]. split; [|done].
    intros _. exists token, app_id, spec, spec'. split_and!; try done.
    intros Hin. apply (str_in_lower "error") in Hin.
    change (lower "error") with "error" in Hin. congruence.
Qed.

End ScriptRuns.

(** The GET failure at a run that cannot resolve the host, with the
    credentials taken from the environment. *)
Lemma get_failure_exit_witness :
  main unreachable_get sample_load_spec sample_dump_spec None None
       {["DO_TOKEN" := "token"; "DO_APP_ID" := "app"]} =
    ([Printed "Fetching current app spec..."; Ran (curl_get "token" "app");
      Printed "Error fetching app: curl: (6) Could not resolve host"],
     Exited 1).
Proof.
  apply (get_failure_exit unreachable_get sample_load_spec sample_dump_spec
           None None {["DO_TOKEN" := "token"; "DO_APP_ID" := "app"]} "token" "app").
  - split; [by vm_compute | discriminate].
  - split; [by vm_compute | discriminate].
  - discriminate.
Defined.

(** The unreadable response at a run whose GET returns an error page. *)
Lemma unreadable_response_raises_witness :
  main garbled_get sample_load_spec sample_dump_spec (Some "token") (Some "app") ∅ =
    ([Printed "Fetching current app spec..."; Ran (curl_get "token" "app")],
     Raised "json.loads").
Proof.
  apply (unreadable_response_raises garbled_get sample_load_spec sample_dump_spec
           (Some "token") (Some "app") ∅ "token" "app").
  - split; [reflexivity | discriminate].
  - split; [reflexivity | discriminate].
  - reflexivity.
  - reflexivity.
Defined.

(** The two commands at the run whose PUT cannot connect. *)
Lemma fetched_spec_is_put_once_witness :
  ∃ spec',
    returns (transform ∅ (web_spec [db_literal])) spec' ∧
    commands
      (main unreachable_put sample_load_spec sample_dump_spec
            (Some "token") (Some "app") ∅).1 =
    [curl_get "token" "app"; curl_put "token" "app" (sample_dump_spec spec')].
Proof.
  apply (fetched_spec_is_put_once unreachable_put sample_load_spec sample_dump_spec
           (Some "token") (Some "app") ∅ "token" "app" (web_spec [db_literal])).
  - split; [reflexivity | discriminate].
  - split; [reflexivity | discriminate].
  - reflexivity.
  - reflexivity.
Defined.

(** ** What the transformer reads and what it leaves alone *)

Lemma new_envs_agree e1 e2 :
  e1 !! "JWT_SECRET" = e2 !! "JWT_SECRET" →
  e1 !! "AI_AGENT_LINGUIST_ID" = e2 !! "AI_AGENT_LINGUIST_ID" →
  e1 !! "AI_AGENT_PHILOLOGIST_ID" = e2 !! "AI_AGENT_PHILOLOGIST_ID" →
  new_envs e1 = new_envs e2.
Proof. intros H1 H2 H3. unfold new_envs, environ_get. by rewrite H1, H2, H3. Qed.

Lemma update_services_agree e1 e2 l :
  new_envs e1 = new_envs e2 → update_services e1 l = update_services e2 l.
Proof.
  intros H. induction l as [|s l IH]; [done|]. cbn [update_services].
  rewrite IH. unfold update_service, update_envs, merge_new_envs. by rewrite H.
Qed.

Lemma transform_agree e1 e2 spec :
  new_envs e1 = new_envs e2 → transform e1 spec = transform e2 spec.
Proof.
  intros H. unfold transform. destruct (services spec); [|done].
  by rewrite (update_services_agree e1 e2).
Qed.

(** X8. Of the environment the transformer reads three variables only: two
    environments that agree on [JWT_SECRET], [AI_AGENT_LINGUIST_ID] and
    [AI_AGENT_PHILOLOGIST_ID] give the same specification and the same
    printed lines. *)
Theorem transform_reads_three_variables (e1 e2 : gmap string string) (spec : Spec) :
  e1 !! "JWT_SECRET" = e2 !! "JWT_SECRET" →
  e1 !! "AI_AGENT_LINGUIST_ID" = e2 !! "AI_AGENT_LINGUIST_ID" →
  e1 !! "AI_AGENT_PHILOLOGIST_ID" = e2 !! "AI_AGENT_PHILOLOGIST_ID" →
  transform e1 spec = transform e2 spec.
Proof.
  intros H1 H2 H3. by apply transform_agree, new_envs_agree.
Qed.

(** The credentials in the environment do not reach the transformer. *)
Lemma transform_reads_three_variables_witness :
  transform {["DO_TOKEN" := "token"; "DO_APP_ID" := "app"]} (web_spec [db_templated]) =
  transform ∅ (web_spec [db_templated]).
Proof. by apply transform_reads_three_variables. Defined.

Lemma bind_ext {A B} (m : Script A) (k k' : A → Script B) :
  (∀ a, k a = k' a) → bind m k = bind m k'.
Proof. intros H. unfold bind. destruct m as [t [a|c|x]]; [by rewrite H | done..]. Qed.

(** X2. A flag wins over the environment: when both flags are given, what
    [DO_TOKEN] and [DO_APP_ID] hold changes nothing in the run. *)
Theorem flags_shadow_environment
    (subprocess_run : list string → CompletedProcess)
    (load_spec : string → option Spec) (dump_spec : Spec → string)
    (token app_id x y : string) (environ : gmap string string) :
  main subprocess_run load_spec dump_spec (Some token) (Some app_id)
       (<["DO_TOKEN" := x]> (<["DO_APP_ID" := y]> environ)) =
  main subprocess_run load_spec dump_spec (Some token) (Some app_id) environ.
Proof.
  unfold main. cbn [from_option default]. apply bind_ext. intros _.
  unfold sync. apply bind_ext. intros spec. f_equal.
  apply transform_agree, new_envs_agree;
    by rewrite !lookup_insert_ne by discriminate.
Qed.

(** X7. The transformer returns a specification with the same members beside
    [services], the same number of services in the same order, each with
    its name and its other members; a service that is not named
    [synoptic-web] is returned as it was, also when another one is. *)
Theorem transform_frame (environ : gmap string string) (spec : Spec) :
  ∃ spec',
    returns (transform environ spec) spec' ∧
    spec_rest spec' = spec_rest spec ∧
    (services spec = None ↔ services spec' = None) ∧
    Forall2
      (λ service service',
         name service' = name service ∧
         service_rest service' = service_rest service ∧
         (name service ≠ Some "synoptic-web" → service' = service))
      (default [] (services spec)) (default [] (services spec')).
Proof.
  unfold transform. destruct spec as [[l|] rest]; simpl.
  - destruct (update_services_total environ l) as (l' & Hl' & HF).
    exists (mkSpec (Some l') rest). split_and!; [|done|done|].
    + eapply returns_bind; [exact Hl'|]. apply returns_ret.
    + simpl. eapply Forall2_impl; [exact HF|]. intros s s' Hr. simpl in Hr.
      pose proof (update_service_returns environ s) as Hr'.
      rewrite (returns_inj _ _ _ Hr Hr'). case_bool_decide; [done|].
      split_and!; done.
  - exists (mkSpec None rest). split_and!; [apply returns_ret|done|done|].
    simpl. constructor.
Qed.

(** ** The keys of the result *)

Lemma first_split_where (P : EnvEntry → Prop) `{∀ x, Decision (P x)} l e :
  e ∈ l → P e →
  ∃ l1 e' l2, l = l1 ++ e' :: l2 ∧ P e' ∧ ∀ x, x ∈ l1 → ¬ P x.
Proof.
  induction l as [|x l IH]; intros He HP; [inversion He|].
  destruct (decide (P x)) as [Hx|Hx].
  - exists [], x, l. split_and!; [done | done |]. intros y Hy. inversion Hy.
  - apply elem_of_cons in He as [->|He]; [done|].
    destruct (IH He HP) as (l1 & e' & l2 & -> & HP' & Hl1).
    exists (x :: l1), e', l2. split_and!; [done | done |].
    intros y [->|Hy]%elem_of_cons; [done | by apply Hl1].
Qed.

(** X9. Every entry of the result is an original entry or a candidate with a
    non-empty value whose key was not there; at most five entries are new. *)
Theorem result_entries_origin (environ : gmap string string) (envs : list EnvEntry) :
  ∃ out, returns (update_envs environ envs) out ∧
    length out ≤ length envs + 5 ∧
    ∀ e, e ∈ out →
      e ∈ envs ∨
      (e ∈ new_envs environ ∧ get_value e ≠ "" ∧ key e ∉ keys envs).
Proof.
  exists (dedup_from ∅ envs ++ added environ envs).
  split; [apply update_envs_final|]. split.
  - rewrite length_app.
    pose proof (sublist_length _ _ (dedup_from_sublist ∅ envs)).
    pose proof (sublist_length _ _ (added_sublist environ envs)) as Ha.
    change (length (new_envs environ)) with 5 in Ha. lia.
  - intros e [He|He]%elem_of_app.
    + left. by apply dedup_from_elem in He as (? & _).
    + right. apply added_elem in He as (? & Hv & ?).
      split_and!; [done | by apply truthy_true | done].
Qed.

Lemma candidate_key_present environ envs c :
  c ∈ new_envs environ → get_value c ≠ "" →
  key c ∈ keys (dedup_from ∅ envs ++ added environ envs).
Proof.
  intros Hc Hv. unfold keys. rewrite fmap_app, elem_of_app.
  destruct (decide (key c ∈ keys envs)) as [Hin|Hin].
  - left. apply dedup_from_keeps_key; [by eapply new_envs_key_ne | done].
  - right. apply list_elem_of_fmap. exists c. split; [done|].
    apply added_elem. split_and!; [done | by apply truthy_true | done].
Qed.

(** X10. A key other than [DATABASE_URL] is in the result exactly when it was
    in the service or is the key of a candidate with a non-empty value:
    the transformer never loses such a key. *)
Theorem result_keys (environ : gmap string string) (envs : list EnvEntry)
    (k : string) :
  k ≠ "DATABASE_URL" →
  ∃ out, returns (update_envs environ envs) out ∧
    (k ∈ keys out ↔
     k ∈ keys envs ∨
     ∃ c, c ∈ new_envs environ ∧ key c = k ∧ get_value c ≠ "").
Proof.
  intros Hk. exists (dedup_from ∅ envs ++ added environ envs).
  split; [apply update_envs_final|].
  unfold keys at 1. rewrite fmap_app, elem_of_app. split.
  - intros [Hin|Hin].
    + left. eapply elem_of_sublist; [exact Hin|].
      apply fmap_sublist, dedup_from_sublist.
    + right. apply list_elem_of_fmap in Hin as (c & -> & Hc).
      apply added_elem in Hc as (? & Hv & _). exists c.
      split_and!; [done | done | by apply truthy_true].
  - intros [Hin|(c & Hc & <- & Hv)].
    + left. by apply dedup_from_keeps_key.
    + pose proof (candidate_key_present environ envs c Hc Hv) as Hin.
      unfold keys in Hin. by rewrite fmap_app, elem_of_app in Hin.
Qed.

(** [result_keys] for a key only the service has. *)
Lemma result_keys_witness :
  ∃ out, returns (update_envs ∅ [mkEnv "FOO" None None None; db_literal]) out ∧
         "FOO" ∈ keys out.
Proof.
  destruct (result_keys ∅ [mkEnv "FOO" None None None; db_literal] "FOO")
    as (out & Hr & Hk); [discriminate|].
  exists out. split; [exact Hr|]. apply Hk. left. by left.
Defined.

(** X11. The key [DATABASE_URL] is in the result exactly when some entry of the
    service has that key and a value with the marker: when every
    [DATABASE_URL] of the service is hard-coded, the result has none. *)
Theorem database_url_key_iff (environ : gmap string string) (envs : list EnvEntry) :
  ∃ out, returns (update_envs environ envs) out ∧
    ("DATABASE_URL" ∈ keys out ↔
     ∃ e, e ∈ envs ∧ key e = "DATABASE_URL" ∧ templated e).
Proof.
  exists (dedup_from ∅ envs ++ added environ envs).
  split; [apply update_envs_final|].
  unfold keys. rewrite fmap_app, elem_of_app. split.
  - intros [Hin|Hin].
    + apply list_elem_of_fmap in Hin as (e & Hk & He).
      apply dedup_from_elem in He as (He & Hh & _). exists e.
      split_and!; [done | done |].
      apply hardcoded_false in Hh as [Hh|Hh]; [by destruct Hh | done].
    + apply list_elem_of_fmap in Hin as (c & Hk & Hc).
      apply added_elem in Hc as (Hc & _). by apply new_envs_key_ne in Hc.
  - intros (e & He & Hk & Ht). left.
    destruct (first_split_where (λ x, hardcoded_database_url x = false ∧ key x = "DATABASE_URL")
                envs e He) as (l1 & e' & l2 & -> & [Hh' Hk'] & Hl1).
    { split; [|done]. apply hardcoded_false. by right. }
    apply list_elem_of_fmap. exists e'. split; [done|].
    apply dedup_from_keeps; [done | apply not_elem_of_empty |].
    intros x Hx Hkx. apply not_false_iff_true. intros Hf.
    apply (Hl1 x Hx). split; [done | congruence].
Qed.

(** X12. Whatever the service and the environment hold, the result has the keys
    [NEXT_PUBLIC_APP_URL] and [NEXT_PUBLIC_ENABLE_AI_FEATURES]. *)
Theorem fixed_keys_always_present (environ : gmap string string)
    (envs : list EnvEntry) :
  ∃ out, returns (update_envs environ envs) out ∧
    "NEXT_PUBLIC_APP_URL" ∈ keys out ∧
    "NEXT_PUBLIC_ENABLE_AI_FEATURES" ∈ keys out.
Proof.
  exists (dedup_from ∅ envs ++ added environ envs).
  split_and!; [apply update_envs_final | |].
  - apply (candidate_key_present environ envs app_url); [|discriminate].
    unfold new_envs. rewrite !elem_of_cons. auto.
  - apply (candidate_key_present environ envs enable_ai); [|discriminate].
    unfold new_envs. rewrite !elem_of_cons. auto 10.
Qed.

Lemma new_envs_jwt environ c :
  c ∈ new_envs environ → key c = "JWT_SECRET" →
  c = mkEnv "JWT_SECRET"
        (Some (environ_get environ "JWT_SECRET"
                 "synoptic-secure-jwt-secret-2025-production-key"))
        (Some "RUN_TIME") (Some "SECRET").
Proof.
  unfold new_envs. rewrite !elem_of_cons.
  intros [->|[->|[->|[->|[->|H]]]]] Hk; try done. inversion H.
Qed.

(** X13. For a service without [JWT_SECRET]: with the variable unset the entry
    is appended with the literal of line 56; with the variable set to a
    non-empty text it is appended with that text; with the variable set to
    the empty text nothing is appended and the result has no [JWT_SECRET]. *)
Theorem jwt_secret_resolution (environ : gmap string string) (envs : list EnvEntry) :
  "JWT_SECRET" ∉ keys envs →
  ∃ out, returns (update_envs environ envs) out ∧
    (environ !! "JWT_SECRET" = None → jwt_fallback ∈ out) ∧
    (∀ v, environ !! "JWT_SECRET" = Some v → v ≠ "" →
          mkEnv "JWT_SECRET" (Some v) (Some "RUN_TIME") (Some "SECRET") ∈ out) ∧
    (environ !! "JWT_SECRET" = Some "" → "JWT_SECRET" ∉ keys out).
Proof.
  intros Hk. exists (dedup_from ∅ envs ++ added environ envs).
  split; [apply update_envs_final|].
  assert (Hhead : ∀ v, environ_get environ "JWT_SECRET"
                         "synoptic-secure-jwt-secret-2025-production-key" = v →
                       v ≠ "" →
                       mkEnv "JWT_SECRET" (Some v) (Some "RUN_TIME") (Some "SECRET")
                         ∈ dedup_from ∅ envs ++ added environ envs).
  { intros v Hv Hne. apply elem_of_app. right. apply added_elem.
    split_and!; [|by apply truthy_true|done].
    unfold new_envs. rewrite Hv. by left. }
  split_and!.
  - intros Hu. apply Hhead; [|discriminate]. unfold environ_get. by rewrite Hu.
  - intros v Hs Hne. apply Hhead; [|done]. unfold environ_get. by rewrite Hs.
  - intros Hs. unfold keys. rewrite fmap_app, elem_of_app. intros [Hin|Hin].
    + apply Hk. eapply elem_of_sublist; [exact Hin|].
      apply fmap_sublist, dedup_from_sublist.
    + apply list_elem_of_fmap in Hin as (c & Hkc & Hc).
      apply added_elem in Hc as (Hc & Hv & _).
      rewrite (new_envs_jwt environ c Hc) in Hv by done.
      unfold get_value, environ_get in Hv. rewrite Hs in Hv. discriminate.
Qed.

(** [jwt_secret_resolution] for a service with one other entry, at an
    environment that sets the variable to the empty text. *)
Lemma jwt_secret_resolution_witness :
  ∃ out, returns (update_envs {["JWT_SECRET" := ""]} [db_templated]) out ∧
         "JWT_SECRET" ∉ keys out.
Proof.
  destruct (jwt_secret_resolution {["JWT_SECRET" := ""]} [db_templated])
    as (out & Hr & _ & _ & He).
  - unfold keys. cbn. rewrite not_elem_of_cons. split; [discriminate | apply not_elem_of_nil].
  - exists out. split; [exact Hr|]. apply He. by vm_compute.
Defined.

(** ** What the transformer prints *)

Lemma lines_for_each_add K cands envs :
  lines (for_each cands (add_new_env K) envs).1 =
  omap (λ c, if bool_decide (key c ∈ K) then Some ("= Already exists: " +:+ key c)
             else if truthy (get_value c) then Some ("+ Adding: " +:+ key c)
             else None) cands.
Proof.
  revert envs. induction cands as [|c cands IH]; intros envs; [done|].
  cbn [for_each omap list_omap]. rewrite bind_trace, lines_app.
  rewrite (add_new_env_returns K c envs), IH. unfold add_new_env.
  destruct (truthy (get_value c)); case_bool_decide as Hk;
    rewrite ?bool_decide_eq_true_2, ?bool_decide_eq_false_2 by (try done; by intros ?);
    done.
Qed.

Lemma lines_for_each_dedup l st :
  lines (for_each l dedup_step st).1 =
  replicate (length (filter (λ e, hardcoded_database_url e) l))
            "- Removing duplicate: DATABASE_URL (hardcoded)".
Proof.
  revert st. induction l as [|e l IH]; intros [d seen]; [done|].
  cbn [for_each]. rewrite bind_trace, lines_app.
  rewrite (dedup_step_returns e d seen), filter_cons. unfold dedup_step.
  destruct (hardcoded_database_url e); simpl.
  - by rewrite IH.
  - case_bool_decide; by rewrite IH.
Qed.

(** X15. The lines the transformer prints for one target service: for each
    candidate, in candidate order, [= Already exists] when the service has
    its key (whatever the candidate's value), [+ Adding] when it has not
    and the value is not empty, nothing otherwise; then one
    [- Removing duplicate] line per hard-coded [DATABASE_URL] entry of the
    service and none for a repeated key; then the length of the result. *)
Theorem transformer_report (environ : gmap string string) (envs : list EnvEntry) :
  ∃ out, returns (update_envs environ envs) out ∧
    lines (update_envs environ envs).1 =
      omap (λ c, if bool_decide (key c ∈ keys envs)
                 then Some ("= Already exists: " +:+ key c)
                 else if truthy (get_value c) then Some ("+ Adding: " +:+ key c)
                 else None) (new_envs environ)
      ++ replicate (length (filter (λ e, hardcoded_database_url e) envs))
                   "- Removing duplicate: DATABASE_URL (hardcoded)"
      ++ ["Total envs: " +:+ pretty (length out)].
Proof.
  exists (dedup_from ∅ (envs ++ added environ envs)).
  split; [apply update_envs_returns|].
  unfold update_envs. rewrite bind_trace, lines_app.
  rewrite (merge_new_envs_returns environ envs). f_equal.
  - unfold merge_new_envs. rewrite lines_for_each_add.
    apply list_omap_ext, Forall_Forall2_diag, Forall_forall. intros c _.
    destruct (decide (key c ∈ keys envs)) as [Hk|Hk].
    + rewrite !bool_decide_eq_true_2; [done | done | by apply elem_of_list_to_set].
    + rewrite !bool_decide_eq_false_2; [done | done |].
      by rewrite elem_of_list_to_set.
  - rewrite bind_trace, lines_app.
    rewrite (dedup_envs_returns (envs ++ added environ envs)). f_equal.
    unfold dedup_envs. rewrite bind_trace, lines_app, lines_for_each_dedup.
    rewrite filter_app, length_app.
    rewrite (filter_none _ (added environ envs)).
    + destruct (for_each _ _ _).2; simpl; by rewrite Nat.add_0_r, app_nil_r.
    + intros c [Hc _]%added_elem Hh.
      apply new_envs_not_hardcoded in Hc. rewrite Hc in Hh. done.
Qed.

(** ** A target service without an env list *)

(** A target service with no [envs] member and an environment without the
    optional variables. *)
Lemma update_service_empty_witness :
  returns (update_service ∅ (mkService (Some "synoptic-web") None []))
          (mkService (Some "synoptic-web")
             (Some [jwt_fallback; app_url; enable_ai]) []).
Proof.
  exact (update_service_empty ∅ (mkService (Some "synoptic-web") None [])
           eq_refl eq_refl).
Defined.

(** ** The command line (lines 23-26) *)

Section CommandLine.
Variable subprocess_run : list string → CompletedProcess.
Variable load_spec : string → option Spec.
Variable dump_spec : Spec → string.
Variable parse_args : list string → parse_outcome.

(** X1. When [parse_args] returns (the command line holds nothing but the
    two flags with their values) and the token or the application id is
    missing or empty, the flag not given and the variable unset or either
    of them the empty string, the script prints its two usage lines and
    leaves with status 1; it runs no command at all. *)
Theorem script_missing_credentials argv environ flag_token flag_app_id :
  parse_args argv = Parsed flag_token flag_app_id →
  ¬ ((∃ token, given (arg_value flag_token environ "DO_TOKEN") token) ∧
     (∃ app_id, given (arg_value flag_app_id environ "DO_APP_ID") app_id)) →
  script subprocess_run load_spec dump_spec parse_args argv environ =
    (usage_lines, Exited 1) ∧
  commands
    (script subprocess_run load_spec dump_spec parse_args argv environ).1 = [].
Proof.
  intros Hp Hc. unfold script. rewrite Hp.
  rewrite (main_py_not subprocess_run load_spec dump_spec); [done|].
  apply orb_true_iff.
  destruct (py_not (arg_value flag_token environ "DO_TOKEN")) eqn:Et; [by left|].
  destruct (py_not (arg_value flag_app_id environ "DO_APP_ID")) eqn:Ea; [by right|].
  destruct Hc. split; by apply py_not_false.
Qed.

(** X6. The exit status of the script is 0, 1 or 2. It is 2 exactly when
    [parse_args] rejects the command line. It is 0 exactly when help was
    asked for, or when the command line is accepted, both credentials are
    there, the GET ends with status 0, its output is an application
    document, and the body of the PUT response does not contain [error]
    in any case. *)
Theorem script_exit_status argv environ :
  (exit_status
     (script subprocess_run load_spec dump_spec parse_args argv environ).2 = 0%Z ∨
   exit_status
     (script subprocess_run load_spec dump_spec parse_args argv environ).2 = 1%Z ∨
   exit_status
     (script subprocess_run load_spec dump_spec parse_args argv environ).2 = 2%Z) ∧
  (exit_status
     (script subprocess_run load_spec dump_spec parse_args argv environ).2 = 2%Z ↔
   parse_args argv = Rejected) ∧
  (exit_status
     (script subprocess_run load_spec dump_spec parse_args argv environ).2 = 0%Z ↔
   (∃ text, parse_args argv = Help text) ∨
   ∃ flag_token flag_app_id token app_id spec spec',
     parse_args argv = Parsed flag_token flag_app_id ∧
     given (arg_value flag_token environ "DO_TOKEN") token ∧
     given (arg_value flag_app_id environ "DO_APP_ID") app_id ∧
     returncode (subprocess_run (curl_get token app_id)) = 0%Z ∧
     load_spec (stdout (subprocess_run (curl_get token app_id))) = Some spec ∧
     returns (transform environ spec) spec' ∧
     ¬ contains_ignoring_case "error"
         (stdout (put_result subprocess_run dump_spec token app_id spec'))).
Proof.
  unfold script. destruct (parse_args argv) as [flag_token flag_app_id|text|] eqn:Hp.
  - destruct (exit_status_zero_iff subprocess_run load_spec dump_spec
                flag_token flag_app_id environ) as [H01 Hiff].
    split_and!.
    + destruct H01 as [->| ->]; auto.
    + split; [|done]. destruct H01 as [H|H]; rewrite H; done.
    + rewrite Hiff. split.
      * intros (token & app_id & spec & spec' & H). right.
        exists flag_token, flag_app_id, token, app_id, spec, spec'. by split.
      * intros [[text [=]]|(ft & fa & token & app_id & spec & spec' & [= <- <-] & H)].
        by exists token, app_id, spec, spec'.
  - simpl. split_and!; [by left | done |]. split; [|done]. intros _. left. by exists text.
  - simpl. split_and!; [by right; right | done |]. split; [done|].
    intros [[text [=]]|(ft & fa & token & app_id & spec & spec' & [=] & _)].
Qed.

End CommandLine.

(** X1 at a command line without arguments and an environment that holds
    the token only. *)
Lemma script_missing_credentials_witness :
  script unreachable_put sample_load_spec sample_dump_spec sample_parse_args
         [] {["DO_TOKEN" := "secret"]} = (usage_lines, Exited 1).
Proof.
  apply (script_missing_credentials unreachable_put sample_load_spec sample_dump_spec
           sample_parse_args [] {["DO_TOKEN" := "secret"]} None None); [reflexivity|].
  intros [_ (app_id & [=] & _)].
Defined.

(** The three ways past the command line, at the sample reader: help
    (status 0), a command line [argparse] rejects (status 2), and an empty
    flag that hides a set variable (status 1). *)
Example script_command_lines :
  script unreachable_put sample_load_spec sample_dump_spec sample_parse_args
         ["--help"] ∅ =
    ([Printed "usage: update_do_spec.py [-h] [--token TOKEN] [--app-id APP_ID]"],
     Exited 0) ∧
  script unreachable_put sample_load_spec sample_dump_spec sample_parse_args
         ["--bogus"] {["DO_TOKEN" := "t"; "DO_APP_ID" := "a"]} = ([], Exited 2) ∧
  script unreachable_put sample_load_spec sample_dump_spec sample_parse_args
         ["--token"; ""; "--app-id"; "app"] {["DO_TOKEN" := "secret"]} =
    (usage_lines, Exited 1).
Proof. split_and!; by vm_compute. Qed.
